(** * flight_tracker.py: a shallow embedding and its specification

    The script polls a position service for aircraft around a rotating list
    of metro areas, resolves airline and route names by callsign through a
    second service (memoised in [callsign_cache]), and renders the first
    resolvable aircraft on an e-ink panel.

    Modelling conventions.
    - Values that come out of [resp.json()] are Python values, [pyval].
      A [dict] with string keys is a [gmap string pyval].
    - Python [int] is [Z].  Python [float] is modelled by the exact rational
      it denotes, [Q]: only finite floats are represented and the binary64
      rounding of [+ - * /] is not modelled.  [math.sin], [math.cos],
      [math.sqrt], [math.atan2] and [math.pi] have no rational counterpart
      and are taken as parameters ([libm]).
    - [str] is [string]; only ASCII text is in the modelled domain (Python
      also accepts non-ASCII digits and spaces in [int(...)] and [strip()]).
    - Code that can raise returns an [outcome]; code that touches the
      cache, the network or the panel runs in the monad [M], which threads
      a [state].  The state is kept when an exception is raised, as in
      Python.
    - The network is an oracle [net]: the reply to the [n]-th request of the
      process, given the request.  [time.time()] is an argument of the loop
      body, and [time.sleep] and logging have no counterpart. *)

From Stdlib Require Import ZArith QArith Qround String Ascii List Lia Lqa
  DecimalString DecimalZ DecimalPos Morphisms.
From stdpp Require Import gmap strings list fin_maps.

#[local] Set Warnings "-register-all".
#[local] Open Scope Z_scope.

(** ** Python values and exceptions *)

Inductive pyval : Type :=
| PNone
| PBool (b : bool)
| PInt (z : Z)
| PFloat (q : Q)
| PStr (s : string)
| PList (l : list pyval)
| PDict (d : gmap string pyval).

Inductive exn : Type :=
| ValueError
| TypeError
| AttributeError
| KeyError
| IndexError
| RequestException      (* connection error or timeout in [requests.get] *)
| HTTPError             (* [raise_for_status] *)
| JSONDecodeError       (* [resp.json()] on a body that is not JSON *)
| ImageError.           (* [Image.open] on bytes that are not an image *)

Inductive outcome (A : Type) : Type :=
| Ok (a : A)
| Raise (e : exn).
Arguments Ok {A} a.
Arguments Raise {A} e.

Definition obind {A B} (x : outcome A) (f : A -> outcome B) : outcome B :=
  match x with
  | Ok a => f a
  | Raise e => Raise e
  end.

(** ** Strings: [strip], [int(str)], [str(int)] *)

Definition is_space (c : ascii) : bool :=
  let n := N_of_ascii c in
  ((9 <=? n) && (n <=? 13) || (28 <=? n) && (n <=? 32))%N.

Definition is_digit (c : ascii) : bool :=
  let n := N_of_ascii c in ((48 <=? n) && (n <=? 57))%N.

Definition digit_val (c : ascii) : Z := Z.of_N (N_of_ascii c) - 48.

Fixpoint lstrip (s : string) : string :=
  match s with
  | EmptyString => EmptyString
  | String c s' => if is_space c then lstrip s' else s
  end.

Fixpoint rstrip (s : string) : string :=
  match s with
  | EmptyString => EmptyString
  | String c s' =>
      match rstrip s' with
      | EmptyString => if is_space c then EmptyString else String c EmptyString
      | r => String c r
      end
  end.

Definition strip (s : string) : string := rstrip (lstrip s).

(** Decimal digits with single underscores between digits, as [int] reads
    them; [prev] tells whether the previous character was a digit. *)
Fixpoint digits_val (s : string) (acc : Z) (prev : bool) : option Z :=
  match s with
  | EmptyString => if prev then Some acc else None
  | String c s' =>
      if is_digit c then digits_val s' (acc * 10 + digit_val c) true
      else if Ascii.eqb c "_" then
        (if prev then digits_val s' acc false else None)
      else None
  end.

(** [int(s)] for a string, base 10: [None] stands for [ValueError].  The
    interpreter's limit on the number of digits is not modelled. *)
Definition int_of_str (s : string) : option Z :=
  match strip s with
  | String "+" r => digits_val r 0 false
  | String "-" r => Z.opp <$> digits_val r 0 false
  | t => digits_val t 0 false
  end.

(** [str(z)] for an integer. *)
Definition str_of_Z (z : Z) : string := NilZero.string_of_int (Z.to_int z).

(** ** Numbers *)

(** [int(x)] on a float truncates toward zero. *)
Definition Qtrunc (q : Q) : Z := Z.quot (Qnum q) (Z.pos (Qden q)).

Definition Qmin (a b : Q) : Q := if Qlt_le_dec b a then b else a.
Definition Qmax (a b : Q) : Q := if Qlt_le_dec a b then b else a.

(** Round to the nearest integer, ties to even: the rounding of the
    [.0f] and [.1f] formats. *)
Definition round_half_even (q : Q) : Z :=
  let f := Qfloor q in
  let d := (q - inject_Z f)%Q in
  match Qcompare d (1 # 2) with
  | Lt => f
  | Gt => f + 1
  | Eq => if Z.even f then f else f + 1
  end.

Fixpoint zero_pad (n : nat) (s : string) : string :=
  match n with
  | O => s
  | S n' => if (String.length s <? S n')%nat
            then zero_pad n' (String "0" s) else s
  end.

(** [f"{q:.<prec>f}"]. *)
Definition format_fixed (prec : nat) (q : Q) : string :=
  let r := Z.abs (round_half_even (q * inject_Z (10 ^ Z.of_nat prec))%Q) in
  let ds := zero_pad (S prec) (str_of_Z r) in
  let k := (String.length ds - prec)%nat in
  let body := match prec with
              | O => ds
              | _ => (substring 0 k ds ++ "." ++ substring k prec ds)%string
              end in
  if Qlt_le_dec q 0 then String "-" body else body.

(** ** Operations on Python values *)

Definition py_truthy (v : pyval) : bool :=
  match v with
  | PNone => false
  | PBool b => b
  | PInt z => negb (z =? 0)
  | PFloat q => negb (Qeq_bool q 0)
  | PStr s => negb (String.eqb s "")
  | PList l => match l with [] => false | _ => true end
  | PDict d => match map_to_list d with [] => false | _ => true end
  end.

(** [a or b] *)
Definition py_or (a b : pyval) : pyval := if py_truthy a then a else b.

(** [int(v)] *)
Definition py_int (v : pyval) : outcome Z :=
  match v with
  | PNone => Raise TypeError
  | PBool b => Ok (if b then 1 else 0)
  | PInt z => Ok z
  | PFloat q => Ok (Qtrunc q)
  | PStr s => match int_of_str s with
              | Some z => Ok z
              | None => Raise ValueError
              end
  | PList _ | PDict _ => Raise TypeError
  end.

(** A value used where [math.radians] or float arithmetic wants a real
    number. *)
Definition py_float (v : pyval) : outcome Q :=
  match v with
  | PBool b => Ok (if b then 1 else 0)%Q
  | PInt z => Ok (inject_Z z)
  | PFloat q => Ok q
  | _ => Raise TypeError
  end.

(** [v.get(k, dflt)]: only a dict has [get]. *)
Definition py_get (v : pyval) (k : string) (dflt : pyval) : outcome pyval :=
  match v with
  | PDict d => Ok (default dflt (d !! k))
  | _ => Raise AttributeError
  end.

(** [v.strip()]: only a str has [strip]. *)
Definition py_strip (v : pyval) : outcome string :=
  match v with
  | PStr s => Ok (strip s)
  | _ => Raise AttributeError
  end.

(** [v[:n]] *)
Definition py_slice_to (n : nat) (v : pyval) : outcome pyval :=
  match v with
  | PList l => Ok (PList (take n l))
  | PStr s => Ok (PStr (substring 0 n s))
  | _ => Raise TypeError
  end.

Fixpoint chars (s : string) : list pyval :=
  match s with
  | EmptyString => []
  | String c s' => PStr (String c EmptyString) :: chars s'
  end.

(** The items of [for x in v]. *)
Definition py_iter (v : pyval) : outcome (list pyval) :=
  match v with
  | PList l => Ok l
  | PStr s => Ok (chars s)
  | PDict d => Ok (PStr <$> (map_to_list d).*1)
  | _ => Raise TypeError
  end.

(** [v != s] for a str constant [s]. *)
Definition py_ne_str (v : pyval) (s : string) : bool :=
  match v with
  | PStr t => negb (String.eqb t s)
  | _ => true
  end.

(** [v.update(kvs)] *)
Definition py_update (v : pyval) (kvs : list (string * pyval)) : outcome pyval :=
  match v with
  | PDict d => Ok (PDict (foldl (fun m kv => <[kv.1 := kv.2]> m) d kvs))
  | _ => Raise AttributeError
  end.

(** ** Configuration *)

Definition HOME_COORDS : Q * Q := (31, -(97))%Q.

Record location := { loc_name : string; loc_lat : Q; loc_lon : Q; loc_radius : Z }.

Definition LOCATIONS : list location :=
  [ {| loc_name := "Austin"; loc_lat := 303 # 10; loc_lon := -(977 # 10); loc_radius := 50 |};
    {| loc_name := "Dallas/Fort Worth"; loc_lat := 329 # 10; loc_lon := -(97); loc_radius := 50 |};
    {| loc_name := "Houston"; loc_lat := 299 # 10; loc_lon := -(953 # 10); loc_radius := 50 |} ].

Definition AIRLINE_LOGO_DOMAINS : gmap string string :=
  <["American Airlines" := "aa.com"]>
  (<["Delta Air Lines" := "delta.com"]>
  (<["United Airlines" := "united.com"]>
  (<["Southwest Airlines" := "southwest.com"]>
  (<["Alaska Airlines" := "alaskaair.com"]> ∅)))).

Definition MAX_AIRCRAFT : nat := 20.
Definition color : Type := Z * Z * Z.
Definition WHITE : color := (255, 255, 255).
Definition BLACK : color := (0, 0, 0).

(** ** Pure helpers *)

Record libm := {
  m_pi : Q;
  m_sin : Q -> Q;
  m_cos : Q -> Q;
  m_sqrt : Q -> Q;
  m_atan2 : Q -> Q -> Q
}.

Definition radians (lm : libm) (deg : Q) : Q := (deg * m_pi lm / 180)%Q.

Definition haversine (lm : libm) (lat1 lon1 lat2 lon2 : Q) : Q :=
  let R := 6371%Q in
  let phi1 := radians lm lat1 in
  let phi2 := radians lm lat2 in
  let dphi := radians lm (lat2 - lat1) in
  let dlambda := radians lm (lon2 - lon1) in
  let a := (m_sin lm (dphi / 2) ^ 2
            + m_cos lm phi1 * m_cos lm phi2 * m_sin lm (dlambda / 2) ^ 2)%Q in
  (R * 2 * m_atan2 lm (m_sqrt lm a) (m_sqrt lm (1 - a)))%Q.

Definition parse_altitude (alt : pyval) : outcome Z :=
  match py_int alt with
  | Ok z => Ok z
  | Raise ValueError | Raise TypeError => Ok 0
  | Raise e => Raise e
  end.

Definition alt_color (alt : Q) : color :=
  (Qtrunc (255 * Qmax 0 (Qmin 1 (1 - alt / 40000))), 0, 0).
Definition dist_color (dist : Q) : color :=
  (Qtrunc (255 * Qmax 0 (Qmin 1 (1 - dist / 100))), 0, 0).
Definition speed_color (speed : Q) : color :=
  (0, Qtrunc (200 * Qmax 0 (Qmin 1 (speed / 600))), 0).

(** ** The process state and the monad of effectful code *)

Definition route : Type := pyval * pyval * pyval.
Definition NA : route := (PStr "N/A", PStr "N/A", PStr "N/A").

Inductive request : Type :=
| GetPoint (lat lon : Q) (radius : Z)   (* api.adsb.lol/v2/point/{lat}/{lon}/{radius} *)
| GetCallsign (callsign : string)       (* api.adsbdb.com/v0/callsign/{callsign} *)
| GetLogo (domain : string).            (* logo.clearbit.com/{domain} *)

(** What [requests.get] hands back: whether [raise_for_status] raises,
    what [json()] yields ([None]: the body is not JSON) and whether the
    body decodes as an image. *)
Record response := {
  status_error : bool;
  json_body : option pyval;
  image_body : bool
}.

Inductive reply : Type :=
| Failed                    (* no response: connection error or timeout *)
| Got (r : response).

Inductive font : Type := font_large | font_medium | font_small.

(** A piece of an f-string: literal text, or [str(v)] of a value. *)
Inductive piece : Type :=
| Lit (s : string)
| Str (v : pyval).

Record text_line := { line_y : Z; line_text : list piece; line_fill : color; line_font : font }.

Record frame := { frame_lines : list text_line; frame_logo : option (string * (Z * Z)) }.

Record display := { WIDTH : Z; HEIGHT : Z }.

Record state := {
  callsign_cache : gmap string route;
  idx : nat;
  last_switch : Q;
  sent : list request;       (* every request issued so far, latest last *)
  shown : list frame         (* every frame handed to the panel, latest last *)
}.

Definition M (A : Type) : Type := state -> outcome A * state.

Definition ret {A} (a : A) : M A := fun s => (Ok a, s).
Definition raise {A} (e : exn) : M A := fun s => (Raise e, s).
Definition bind {A B} (m : M A) (f : A -> M B) : M B :=
  fun s => match m s with
           | (Ok a, s') => f a s'
           | (Raise e, s') => (Raise e, s')
           end.
Definition lift {A} (x : outcome A) : M A := fun s => (x, s).

(** [try: body  except Exception: handler] *)
Definition try_except {A} (body : M A) (handler : exn -> M A) : M A :=
  fun s => match body s with
           | (Ok a, s') => (Ok a, s')
           | (Raise e, s') => handler e s'
           end.

#[global] Instance M_ret : MRet M := @ret.
#[global] Instance M_bind : MBind M := fun A B f m => bind m f.

Definition set_cache (k : string) (r : route) : M unit :=
  fun s => (Ok tt, {| callsign_cache := <[k := r]> (callsign_cache s);
                      idx := idx s; last_switch := last_switch s;
                      sent := sent s; shown := shown s |}).

(** [self.callsign_cache[k]] *)
Definition get_cache (k : string) : M route :=
  fun s => match callsign_cache s !! k with
           | Some r => (Ok r, s)
           | None => (Raise KeyError, s)
           end.

Definition show (f : frame) : M unit :=
  fun s => (Ok tt, {| callsign_cache := callsign_cache s;
                      idx := idx s; last_switch := last_switch s;
                      sent := sent s; shown := shown s ++ [f] |}).

Definition set_rotation (i : nat) (t : Q) : M unit :=
  fun s => (Ok tt, {| callsign_cache := callsign_cache s;
                      idx := i; last_switch := t;
                      sent := sent s; shown := shown s |}).

Section Program.

Variable lm : libm.
Variable net : nat -> request -> reply.
Variable panel : display.

(** [requests.get(url, timeout=10)]: one request on the wire. *)
Definition http_get (rq : request) : M response :=
  fun s =>
    let s' := {| callsign_cache := callsign_cache s;
                 idx := idx s; last_switch := last_switch s;
                 sent := sent s ++ [rq]; shown := shown s |} in
    match net (length (sent s)) rq with
    | Failed => (Raise RequestException, s')
    | Got r => (Ok r, s')
    end.

Definition raise_for_status (r : response) : M unit :=
  if status_error r then raise HTTPError else ret tt.

Definition json (r : response) : M pyval :=
  match json_body r with
  | Some v => ret v
  | None => raise JSONDecodeError
  end.

(** *** FlightFetcher *)

Definition fetch_aircraft (lat lon : Q) (radius : Z) : M pyval :=
  try_except
    (resp ← http_get (GetPoint lat lon radius);
     raise_for_status resp ;;
     j ← json resp;
     ac ← lift (py_get j "ac" (PList []));
     lift (py_slice_to MAX_AIRCRAFT ac))
    (fun _ => ret (PList [])).

(** Lines 118-121: the names under [response.flightroute]. *)
Definition parse_route (j : pyval) : outcome route :=
  obind (py_get j "response" (PDict ∅)) (fun r =>
  obind (py_get r "flightroute" (PDict ∅)) (fun fr =>
  obind (py_get fr "airline" (PDict ∅)) (fun a =>
  obind (py_get a "name" (PStr "N/A")) (fun airline =>
  obind (py_get fr "origin" (PDict ∅)) (fun o =>
  obind (py_get o "name" (PStr "N/A")) (fun origin =>
  obind (py_get fr "destination" (PDict ∅)) (fun d =>
  obind (py_get d "name" (PStr "N/A")) (fun dest =>
  Ok (airline, origin, dest))))))))).

(** The body of the [try] in [fetch_route_info]. *)
Definition lookup_route (callsign : string) : M unit :=
  resp ← http_get (GetCallsign callsign);
  raise_for_status resp ;;
  j ← json resp;
  r ← lift (parse_route j);
  set_cache callsign r.

Definition fetch_route_info (callsign : string) : M route :=
  fun s =>
    match callsign_cache s !! callsign with
    | Some r => (Ok r, s)
    | None =>
        (if String.eqb callsign "" then
           set_cache callsign NA ;; get_cache callsign
         else
           try_except (lookup_route callsign)
                      (fun _ => set_cache callsign NA) ;;
           get_cache callsign) s
    end.

(** *** FlightDisplay *)

(** [AIRLINE_LOGO_DOMAINS.get(airline)] hashes its argument, which a list
    or a dict refuses. *)
Definition fetch_logo (airline : pyval) : M (option string) :=
  match airline with
  | PList _ | PDict _ => raise TypeError
  | PStr name =>
      match AIRLINE_LOGO_DOMAINS !! name with
      | None => ret None
      | Some domain =>
          if String.eqb domain "" then ret None
          else
            try_except
              (resp ← http_get (GetLogo domain);
               raise_for_status resp ;;
               if image_body resp then ret (Some domain) else raise ImageError)
              (fun _ => ret None)
      end
  | _ => ret None
  end.

(** [haversine(...) if lat and lon else 0] *)
Definition distance_from (home_coords : Q * Q) (lat lon : pyval) : outcome Q :=
  if py_truthy lat && py_truthy lon then
    obind (py_float lat) (fun lat2 =>
    obind (py_float lon) (fun lon2 =>
    Ok (haversine lm home_coords.1 home_coords.2 lat2 lon2)))
  else Ok 0%Q.

(** The derived fields of one aircraft record, computed at the top of
    [draw]. *)
Record fields := {
  f_callsign : string;
  f_alt : Z;
  f_speed : Z;
  f_airline : pyval;
  f_origin : pyval;
  f_dest : pyval;
  f_dist_km : Q;
  f_dist_mi : Q;
  f_speed_mph : Q
}.

Definition derive (ac : pyval) (home_coords : Q * Q) : outcome fields :=
  obind (py_get ac "flight" (PStr "N/A")) (fun flight =>
  obind (py_strip flight) (fun callsign =>
  obind (py_get ac "alt_baro" PNone) (fun alt_baro =>
  obind (parse_altitude alt_baro) (fun alt =>
  obind (py_get ac "gs" PNone) (fun gs =>
  obind (py_int (py_or gs (PInt 0))) (fun speed =>
  obind (py_get ac "lat" PNone) (fun lat =>
  obind (py_get ac "lon" PNone) (fun lon =>
  obind (py_get ac "airline_name" (PStr "N/A")) (fun airline =>
  obind (py_get ac "origin_name" (PStr "N/A")) (fun origin =>
  obind (py_get ac "destination_name" (PStr "N/A")) (fun dest =>
  obind (distance_from home_coords lat lon) (fun dist_km =>
  Ok {| f_callsign := callsign; f_alt := alt; f_speed := speed;
        f_airline := airline; f_origin := origin; f_dest := dest;
        f_dist_km := dist_km;
        f_dist_mi := (dist_km * (621371 # 1000000))%Q;
        f_speed_mph := (inject_Z speed * (115078 # 100000))%Q |})))))))))))).

Definition layout (f : fields) (loc_name : string) : list text_line :=
  [ {| line_y := 10; line_text := [Lit loc_name; Lit " Area"];
       line_fill := BLACK; line_font := font_large |};
    {| line_y := 50; line_text := [Lit "Flight: "; Lit (f_callsign f)];
       line_fill := BLACK; line_font := font_medium |};
    {| line_y := 80; line_text := [Lit "Airline: "; Str (f_airline f)];
       line_fill := BLACK; line_font := font_medium |};
    {| line_y := 110; line_text := [Lit "Altitude: "; Lit (str_of_Z (f_alt f)); Lit " ft"];
       line_fill := alt_color (inject_Z (f_alt f)); line_font := font_medium |};
    {| line_y := 140; line_text := [Lit "Speed: "; Lit (format_fixed 0 (f_speed_mph f)); Lit " mph"];
       line_fill := speed_color (inject_Z (f_speed f)); line_font := font_medium |};
    {| line_y := 170; line_text := [Lit "Distance: "; Lit (format_fixed 1 (f_dist_mi f)); Lit " mi"];
       line_fill := dist_color (f_dist_km f); line_font := font_medium |};
    {| line_y := 205; line_text := [Lit "From: "; Str (f_origin f)];
       line_fill := BLACK; line_font := font_small |};
    {| line_y := 230; line_text := [Lit "To: "; Str (f_dest f)];
       line_fill := BLACK; line_font := font_small |} ].

Definition draw (aircraft : list pyval) (loc_name : string) (home_coords : Q * Q) : M unit :=
  let width := HEIGHT panel in
  let height := WIDTH panel in
  match aircraft with
  | [] => raise IndexError
  | ac :: _ =>
      f ← lift (derive ac home_coords);
      logo ← fetch_logo (f_airline f);
      show {| frame_lines := layout f loc_name;
              frame_logo := (fun d => (d, (width - 200 - 10, height - 60 - 10))) <$> logo |}
  end.

(** *** FlightTrackerApp *)

(** The [for] loop of [run]: [enriched] is [enriched_aircraft] so far. *)
Fixpoint enrich (aircraft : list pyval) (enriched : list pyval) : M (list pyval) :=
  match aircraft with
  | [] => ret enriched
  | ac :: rest =>
      flight ← lift (py_get ac "flight" PNone);
      callsign ← lift (py_strip (py_or flight (PStr "")));
      r ← fetch_route_info callsign;
      let '(airline, origin, dest) := r in
      if py_ne_str airline "N/A" then
        ac' ← lift (py_update ac [("airline_name", airline);
                                  ("origin_name", origin);
                                  ("destination_name", dest)]);
        enrich rest (enriched ++ [ac'])
      else enrich rest enriched
  end.

Definition switch_interval : Q := 300.

Definition next_idx (i : nat) : nat := ((i + 1) mod length LOCATIONS)%nat.

(** [if now - self.last_switch >= self.switch_interval: ...] *)
Definition rotate_if_due (now : Q) : M unit :=
  fun s =>
    if Qle_bool switch_interval (now - last_switch s)
    then set_rotation (next_idx (idx s)) now s
    else (Ok tt, s).

(** The [else] branch at the end of the loop body. *)
Definition skip_ahead (now : Q) : M unit :=
  fun s => set_rotation (next_idx (idx s)) now s.

Definition current_location : M location :=
  fun s => match LOCATIONS !! idx s with
           | Some loc => (Ok loc, s)
           | None => (Raise IndexError, s)
           end.

(** The loop body up to and including the [for] loop. *)
Definition gather (now : Q) : M (location * list pyval) :=
  rotate_if_due now ;;
  loc ← current_location;
  aircraft ← fetch_aircraft (loc_lat loc) (loc_lon loc) (loc_radius loc);
  items ← lift (py_iter aircraft);
  enriched ← enrich items [];
  ret (loc, enriched).

(** One iteration of [while True], entered at wall-clock time [now]. *)
Definition run_body (now : Q) : M unit :=
  r ← gather now;
  match r.2 with
  | [] => skip_ahead now
  | _ => draw r.2 (loc_name r.1) HOME_COORDS
  end.

(** The first iterations of [run], one per clock reading; an exception
    ends the process. *)
Fixpoint run (clock : list Q) : M unit :=
  match clock with
  | [] => ret tt
  | now :: later => run_body now ;; run later
  end.

End Program.

(** [FlightTrackerApp.__init__] at wall-clock time [t0]. *)
Definition init (t0 : Q) : state :=
  {| callsign_cache := ∅; idx := 0; last_switch := t0; sent := []; shown := [] |}.

(** * Vocabulary of the statements *)

(** The value of a big-endian digit sequence, read onto [acc]. *)
Fixpoint uval (d : Decimal.uint) (acc : Z) : Z :=
  match d with
  | Decimal.Nil => acc
  | Decimal.D0 d => uval d (acc * 10)
  | Decimal.D1 d => uval d (acc * 10 + 1)
  | Decimal.D2 d => uval d (acc * 10 + 2)
  | Decimal.D3 d => uval d (acc * 10 + 3)
  | Decimal.D4 d => uval d (acc * 10 + 4)
  | Decimal.D5 d => uval d (acc * 10 + 5)
  | Decimal.D6 d => uval d (acc * 10 + 6)
  | Decimal.D7 d => uval d (acc * 10 + 7)
  | Decimal.D8 d => uval d (acc * 10 + 8)
  | Decimal.D9 d => uval d (acc * 10 + 9)
  end.

Definition no_space (s : string) : Prop :=
  Forall (fun c => is_space c = false) (list_ascii_of_string s).

(** [x] clamped to the unit interval, as [max(0, min(1, x))]. *)
Definition clamp01 (x : Q) : Q := Qmax 0 (Qmin 1 x).
Definition red (c : color) : Z := c.1.1.
Definition green (c : color) : Z := c.1.2.
Definition blue (c : color) : Z := c.2.
Definition channels_in_range (c : color) : Prop :=
  (0 <= red c <= 255) /\ (0 <= green c <= 255) /\ (0 <= blue c <= 255).

(** A character that no integer literal contains. *)
Definition foreign_char (c : ascii) : bool :=
  negb (is_digit c || is_space c || Ascii.eqb c "+" || Ascii.eqb c "-" || Ascii.eqb c "_").

Definition has_foreign_char (s : string) : Prop :=
  Exists (fun c => foreign_char c = true) (list_ascii_of_string s).

(** The state after [callsign_cache[k] = r]. *)
Definition cached (k : string) (r : route) (s : state) : state :=
  {| callsign_cache := <[k := r]> (callsign_cache s);
     idx := idx s; last_switch := last_switch s;
     sent := sent s; shown := shown s |}.

(** The state after one more request went out. *)
Definition requested (rq : request) (s : state) : state :=
  {| callsign_cache := callsign_cache s;
     idx := idx s; last_switch := last_switch s;
     sent := sent s ++ [rq]; shown := shown s |}.

(** A route lookup fails: no response, an error status, a body that is
    not JSON, or JSON in which a [.get] meets something that is not an
    object. *)
Definition lookup_fails (rep : reply) : bool :=
  match rep with
  | Failed => true
  | Got r =>
      status_error r ||
      match json_body r with
      | None => true
      | Some j => match parse_route j with Ok _ => false | Raise _ => true end
      end
  end.

(** What a lookup that got [rep] leaves in the cache. *)
Definition route_of_reply (rep : reply) : route :=
  match rep with
  | Failed => NA
  | Got r =>
      if status_error r then NA
      else match json_body r with
           | None => NA
           | Some j => match parse_route j with Ok rt => rt | Raise _ => NA end
           end
  end.

(** Every entry of the cache of [s] is still in the cache of [s']. *)
Definition cache_kept (s s' : state) : Prop :=
  forall k r, callsign_cache s !! k = Some r -> callsign_cache s' !! k = Some r.

(** [s'] has the rotation state of [s] and has lost no cache entry. *)
Definition quiet (s s' : state) : Prop :=
  idx s' = idx s /\ last_switch s' = last_switch s /\ cache_kept s s'.

(** Running [m] relates the state before to the state after, whatever the
    outcome. *)
Definition preserves (R : state -> state -> Prop) {A} (m : M A) : Prop :=
  forall s, R s (m s).2.

(** What [fetch_aircraft] returns when the position service answers [rep]. *)
Definition aircraft_of_reply (rep : reply) : pyval :=
  match rep with
  | Failed => PList []
  | Got r =>
      if status_error r then PList []
      else match json_body r with
           | Some (PDict d) =>
               match d !! "ac"%string with
               | Some (PList l) => PList (take MAX_AIRCRAFT l)
               | Some (PStr t) => PStr (substring 0 MAX_AIRCRAFT t)
               | _ => PList []
               end
           | _ => PList []
           end
  end.

(** The payload the position service is expected to send: a success
    status and a JSON object whose ["ac"] is a list. *)
Definition well_formed_positions (rep : reply) : bool :=
  match rep with
  | Failed => false
  | Got r =>
      negb (status_error r) &&
      match json_body r with
      | Some (PDict d) => match d !! "ac"%string with Some (PList _) => true | _ => false end
      | _ => false
      end
  end.

(** C6 as the specification words it: anything but a well-formed payload
    gives the empty list. *)
Definition malformed_gives_empty : Prop :=
  forall (net : nat -> request -> reply) lat lon radius s,
    well_formed_positions (net (length (sent s)) (GetPoint lat lon radius)) = false ->
    (fetch_aircraft net lat lon radius s).1 = Ok (PList []).

Definition string_positions : reply :=
  Got {| status_error := false;
         json_body := Some (PDict {[ "ac"%string := PStr "hello" ]});
         image_body := false |}.

(** The state after [idx] moved to the next area at time [now]. *)
Definition advanced (now : Q) (s : state) : state :=
  {| callsign_cache := callsign_cache s;
     idx := next_idx (idx s); last_switch := now;
     sent := sent s; shown := shown s |}.

(** Consecutive clock readings, starting after [t], less than the
    switch interval apart. *)
Fixpoint paced (t : Q) (clock : list Q) : Prop :=
  match clock with
  | [] => True
  | now :: later => (now - t < switch_interval)%Q /\ paced now later
  end.

(** No position query is answered with aircraft. *)
Definition empty_skies (net : nat -> request -> reply) : Prop :=
  forall n lat lon radius, aircraft_of_reply (net n (GetPoint lat lon radius)) = PList [].

(** What [haversine] needs of the C library: the functions depend on the
    value of their argument only, the sine is odd, and the values at the
    origin are exact. *)
Record libm_laws (lm : libm) : Prop := {
  sin_proper : Proper (Qeq ==> Qeq) (m_sin lm);
  cos_proper : Proper (Qeq ==> Qeq) (m_cos lm);
  sqrt_proper : Proper (Qeq ==> Qeq) (m_sqrt lm);
  atan2_proper : Proper (Qeq ==> Qeq ==> Qeq) (m_atan2 lm);
  sin_odd : forall x, (m_sin lm (- x) == - m_sin lm x)%Q;
  sin_0 : (m_sin lm 0 == 0)%Q;
  sqrt_0 : (m_sqrt lm 0 == 0)%Q;
  sqrt_1 : (m_sqrt lm 1 == 1)%Q;
  atan2_0_1 : (m_atan2 lm 0 1 == 0)%Q
}.

(** A number: what [math.radians] accepts. *)
Definition is_number (v : pyval) : bool :=
  match v with
  | PBool _ | PInt _ | PFloat _ => true
  | _ => false
  end.

(** [o] is absent or holds an object: what [.get(k, {})] can be followed
    by another [.get]. *)
Definition object_or_absent (o : option pyval) : bool :=
  match o with
  | None | Some (PDict _) => true
  | Some _ => false
  end.

(** [o.get(k, {}).get("name", "N/A")] for an [o] that has [k] as [v]. *)
Definition name_under (v : option pyval) : pyval :=
  match v with
  | Some (PDict d) => default (PStr "N/A") (d !! "name"%string)
  | _ => PStr "N/A"
  end.

(** A logo request succeeded: a success status and bytes that decode. *)
Definition logo_arrives (rep : reply) : bool :=
  match rep with
  | Failed => false
  | Got r => negb (status_error r) && image_body r
  end.

(** The state after [f] went to the panel. *)
Definition displayed (f : frame) (s : state) : state :=
  {| callsign_cache := callsign_cache s;
     idx := idx s; last_switch := last_switch s;
     sent := sent s; shown := shown s ++ [f] |}.

(** The frame [draw] builds from the fields [f] and the logo it got. *)
Definition frame_of (panel : display) (f : fields) (loc_name : string)
    (logo : option string) : frame :=
  {| frame_lines := layout f loc_name;
     frame_logo := (fun d => (d, (HEIGHT panel - 200 - 10, WIDTH panel - 60 - 10))) <$> logo |}.

(** [ac'] is the record [ac] after the [update] of the [for] loop, with
    an airline other than ["N/A"]. *)
Definition enriches (ac ac' : pyval) : Prop :=
  exists d airline origin dest,
    ac = PDict d /\ py_ne_str airline "N/A" = true /\
    ac' = PDict (<["destination_name"%string := dest]>
                (<["origin_name"%string := origin]>
                (<["airline_name"%string := airline]> d))).

(** A record the [for] loop can read a callsign from: an object whose
    ["flight"] is absent, falsy or a string. *)
Definition usable_record (ac : pyval) : bool :=
  match ac with
  | PDict d =>
      match d !! "flight"%string with
      | None | Some (PStr _) => true
      | Some v => negb (py_truthy v)
      end
  | _ => false
  end.

(** The log [field] of [s'] is the log of [s] with at most [n] more
    entries at its end. *)
Definition grows {A} (field : state -> list A) (n : nat) (s s' : state) : Prop :=
  exists l, field s' = field s ++ l /\ (length l <= n)%nat.

(** Running [m] adds at most [n] entries to the log [field]. *)
Definition adds {A X} (field : state -> list A) (n : nat) (m : M X) : Prop :=
  forall s, grows field n s (m s).2.

(** A value [dict.get] can hash: anything but a list or a dict. *)
Definition plain_name (v : pyval) : bool :=
  match v with
  | PList _ | PDict _ => false
  | _ => true
  end.

(** A ground speed that [int(gs or 0)] accepts. *)
Definition speed_readable (gs : pyval) : bool :=
  match py_int (py_or gs (PInt 0)) with
  | Ok _ => true
  | Raise _ => false
  end.

(** Coordinates that [haversine(...) if lat and lon else 0] accepts: one
    of them falsy, or both numbers. *)
Definition coords_usable (lat lon : pyval) : bool :=
  negb (py_truthy lat && py_truthy lon) || (is_number lat && is_number lon).

(** An aircraft record that both the [for] loop and [draw] can read: an
    object whose ["flight"] is absent or a string, with a readable ground
    speed and usable coordinates. *)
Definition drawable (ac : pyval) : bool :=
  match ac with
  | PDict d =>
      match d !! "flight"%string with
      | None | Some (PStr _) => true
      | Some _ => false
      end
      && speed_readable (default PNone (d !! "gs"%string))
      && coords_usable (default PNone (d !! "lat"%string)) (default PNone (d !! "lon"%string))
  | _ => false
  end.

(** A drawable record whose airline can be looked up in the logo table. *)
Definition ready (ac : pyval) : bool :=
  drawable ac &&
  match ac with
  | PDict d => plain_name (default (PStr "N/A") (d !! "airline_name"%string))
  | _ => false
  end.

(** Every cached airline can be hashed. *)
Definition tame_cache (s : state) : Prop :=
  forall k r, callsign_cache s !! k = Some r -> plain_name r.1.1 = true.

(** The services answer with readable data or fail: every position reply
    yields drawable records only, and no route reply names an airline
    with a list or an object. *)
Definition tame_net (net : nat -> request -> reply) : Prop :=
  (forall n lat lon radius items,
     py_iter (aircraft_of_reply (net n (GetPoint lat lon radius))) = Ok items ->
     forallb drawable items = true) /\
  (forall n callsign,
     plain_name (route_of_reply (net n (GetCallsign callsign))).1.1 = true).

(** [rq] is the route lookup of [callsign]. *)
Definition is_lookup_of (callsign : string) (rq : request) : bool :=
  match rq with
  | GetCallsign c => String.eqb c callsign
  | _ => false
  end.

(** How many route lookups of [callsign] went out so far. *)
Definition lookups (callsign : string) (s : state) : nat :=
  length (List.filter (is_lookup_of callsign) (sent s)).

(** No callsign was looked up twice, and none that is missing from the
    cache was looked up at all. *)
Definition frugal (s : state) : Prop :=
  forall c, (lookups c s <= 1)%nat /\ (callsign_cache s !! c = None -> lookups c s = 0%nat).

(** A request the configuration accounts for: the position query of one
    of [LOCATIONS], the route of a callsign that is not empty, or the logo
    of a domain in [AIRLINE_LOGO_DOMAINS]. *)
Definition configured (rq : request) : Prop :=
  match rq with
  | GetPoint lat lon radius =>
      exists loc, loc ∈ LOCATIONS /\
        lat = loc_lat loc /\ lon = loc_lon loc /\ radius = loc_radius loc
  | GetCallsign callsign => callsign <> ""%string
  | GetLogo domain => exists name, AIRLINE_LOGO_DOMAINS !! name = Some domain
  end.

(** From [s] to [s'] the request log grew by configured requests only,
    and frugality was kept. *)
Definition tidy (s s' : state) : Prop :=
  (frugal s -> frugal s') /\
  exists l, sent s' = sent s ++ l /\ Forall configured l.

(** The airline, origin and destination lines of [fr] print the route [r]. *)
Definition shows_route (fr : frame) (r : route) : Prop :=
  line_text <$> frame_lines fr !! 2%nat = Some [Lit "Airline: "; Str r.1.1] /\
  line_text <$> frame_lines fr !! 6%nat = Some [Lit "From: "; Str r.1.2] /\
  line_text <$> frame_lines fr !! 7%nat = Some [Lit "To: "; Str r.2].

(** [fr] prints a route that the cache of [s] holds and whose airline is
    not ["N/A"]. *)
Definition routed (s : state) (fr : frame) : Prop :=
  exists callsign r,
    callsign_cache s !! callsign = Some r /\ py_ne_str r.1.1 "N/A" = true /\
    shows_route fr r.

(** [ac] went through the [update] of the [for] loop with a route that the
    cache of [s] holds and whose airline is not ["N/A"]. *)
Definition tagged (s : state) (ac : pyval) : Prop :=
  exists d callsign r,
    callsign_cache s !! callsign = Some r /\ py_ne_str r.1.1 "N/A" = true /\
    ac = PDict (<["destination_name"%string := r.2]>
               (<["origin_name"%string := r.1.2]>
               (<["airline_name"%string := r.1.1]> d))).

(** From [s] to [s'] the cache lost nothing and every new frame prints a
    route of the cache of [s']. *)
Definition on_air (s s' : state) : Prop :=
  cache_kept s s' /\ exists l, shown s' = shown s ++ l /\ Forall (routed s') l.

(** ** Concrete inputs *)

(** A fixed-point stand-in for the C library, to run the program on
    concrete inputs: truncated power series and Newton iteration, every
    result cut to nine decimals.  Good to a few digits for the arguments
    of the examples (angles below one radian, [atan2] with a positive
    second argument). *)
Definition snap (x : Q) : Q := Qfloor (x * 1000000000) # 1000000000.
Definition series_sin (x : Q) : Q :=
  snap (x - x ^ 3 / 6 + x ^ 5 / 120 - x ^ 7 / 5040).
Definition series_cos (x : Q) : Q :=
  snap (1 - x ^ 2 / 2 + x ^ 4 / 24 - x ^ 6 / 720).
Definition newton_sqrt (a : Q) : Q :=
  if Qle_bool a 0 then 0%Q
  else Nat.iter 30 (fun x => snap ((x + a / x) / 2)) 1%Q.
Definition series_atan2 (y x : Q) : Q :=
  let t := snap (y / x) in
  snap (t - t ^ 3 / 3 + t ^ 5 / 5 - t ^ 7 / 7 + t ^ 9 / 9).
Definition series_libm : libm :=
  {| m_pi := 3141592654 # 1000000000; m_sin := series_sin; m_cos := series_cos;
     m_sqrt := newton_sqrt; m_atan2 := series_atan2 |}.

(** A network that never answers. *)
Definition silent_net (n : nat) (rq : request) : reply := Failed.

Definition inky_panel : display := {| WIDTH := 600; HEIGHT := 448 |}.

Definition json_reply (j : pyval) : reply :=
  Got {| status_error := false; json_body := Some j; image_body := false |}.

(** An aircraft over the equator, due south of the home location. *)
Definition equator_aircraft : pyval :=
  PDict {[ "flight"%string := PStr "AAL1";
           "lat"%string := PFloat 0;
           "lon"%string := PFloat (-(97)) ]}.

(** An aircraft whose ground speed is text. *)
Definition text_speed_aircraft : pyval :=
  PDict {[ "flight"%string := PStr "AAL1"; "gs"%string := PStr "fast" ]}.

Definition american_route : pyval :=
  PDict {[ "response"%string :=
    PDict {[ "flightroute"%string :=
      PDict {[ "airline"%string := PDict {[ "name"%string := PStr "American Airlines" ]} ]} ]} ]}.

(** A network that reports [ac] alone in every area, flown by American. *)
Definition one_aircraft_net (ac : pyval) (n : nat) (rq : request) : reply :=
  match rq with
  | GetPoint _ _ _ => json_reply (PDict {[ "ac"%string := PList [ac] ]})
  | GetCallsign _ => json_reply american_route
  | GetLogo _ => Failed
  end.

(** A C library that satisfies the laws, for the witnesses: the first
    term of each power series. *)
Definition first_order_libm : libm :=
  {| m_pi := 3; m_sin := fun x => x; m_cos := fun _ => 1%Q;
     m_sqrt := fun x => x; m_atan2 := fun y _ => y |}.

(** A record with a callsign and nothing else. *)
Definition bare_aircraft (callsign : string) : pyval :=
  PDict {[ "flight"%string := PStr callsign ]}.

(** * Properties *)

(** ** Strings and numbers *)

Example ex_strip : strip "  AAL1 " = "AAL1"%string.
Proof. reflexivity. Qed.
Example ex_int1 : int_of_str " -1_000 " = Some (-1000).
Proof. reflexivity. Qed.
Example ex_fmt0 : format_fixed 0 (450 * (115078 # 100000)) = "518"%string.
Proof. reflexivity. Qed.
Example ex_fmt1 : format_fixed 1 (-(12345 # 1000)) = "-12.3"%string.
Proof. reflexivity. Qed.

Lemma uval_of_uint_acc d acc : Z.pos (Pos.of_uint_acc d acc) = uval d (Z.pos acc).
Proof.
  revert acc; induction d; intros acc; simpl; try reflexivity;
    rewrite IHd; f_equal; lia.
Qed.

Lemma uval_of_uint d : Z.of_N (Pos.of_uint d) = uval d 0.
Proof.
  induction d; simpl; try reflexivity; try assumption;
    rewrite uval_of_uint_acc; reflexivity.
Qed.

Lemma digits_val_uint d acc :
  d <> Decimal.Nil ->
  digits_val (NilEmpty.string_of_uint d) acc false = Some (uval d acc).
Proof.
  assert (H : forall d acc, digits_val (NilEmpty.string_of_uint d) acc true = Some (uval d acc)).
  { clear. induction d; intros acc; simpl; try reflexivity;
      rewrite IHd; do 2 f_equal; vm_compute (digit_val _); lia. }
  destruct d; intros Hd; try congruence; simpl; rewrite H;
    do 2 f_equal; vm_compute (digit_val _); lia.
Qed.

Lemma uint_no_space d : no_space (NilEmpty.string_of_uint d).
Proof.
  induction d; simpl; try constructor; auto.
Qed.

Lemma rstrip_no_space s : no_space s -> rstrip s = s.
Proof.
  induction s as [|c s IH]; intros H; [reflexivity|].
  inversion H as [|? ? Hc Hs]; subst. simpl. rewrite (IH Hs), Hc.
  destruct s; reflexivity.
Qed.

Lemma strip_no_space s : no_space s -> strip s = s.
Proof.
  intros H. unfold strip.
  assert (lstrip s = s) as ->.
  { destruct s; [reflexivity|]. inversion H; subst. simpl.
    match goal with h : is_space _ = false |- _ => rewrite h end. reflexivity. }
  apply rstrip_no_space, H.
Qed.

Lemma int_of_str_uint d :
  d <> Decimal.Nil -> int_of_str (NilEmpty.string_of_uint d) = Some (uval d 0).
Proof.
  intros Hd. unfold int_of_str.
  rewrite (strip_no_space _ (uint_no_space d)).
  rewrite <- (digits_val_uint d 0 Hd).
  destruct d; try congruence; reflexivity.
Qed.

Lemma int_of_str_of_Z z : int_of_str (str_of_Z z) = Some z.
Proof.
  unfold str_of_Z. destruct z as [|p|p]; [reflexivity| |].
  - simpl. pose proof (Unsigned.to_uint_nonnil p) as Hn.
    assert (NilZero.string_of_uint (Pos.to_uint p) = NilEmpty.string_of_uint (Pos.to_uint p)) as ->.
    { unfold NilZero.string_of_uint. destruct (Pos.to_uint p); congruence. }
    rewrite (int_of_str_uint _ Hn), <- uval_of_uint, Unsigned.of_to. reflexivity.
  - simpl. pose proof (Unsigned.to_uint_nonnil p) as Hn.
    assert (NilZero.string_of_uint (Pos.to_uint p) = NilEmpty.string_of_uint (Pos.to_uint p)) as ->.
    { unfold NilZero.string_of_uint. destruct (Pos.to_uint p); congruence. }
    unfold int_of_str.
    assert (Hs : no_space (String "-" (NilEmpty.string_of_uint (Pos.to_uint p)))).
    { constructor; [reflexivity | apply uint_no_space]. }
    rewrite (strip_no_space _ Hs).
    rewrite (digits_val_uint _ 0 Hn), <- uval_of_uint, Unsigned.of_to. reflexivity.
Qed.

Lemma Qtrunc_nonneg q : (0 <= q)%Q -> Qtrunc q = Qfloor q.
Proof.
  destruct q as [n d]. unfold Qle, Qtrunc, Qfloor. simpl. intros H.
  apply Z.quot_div_nonneg; lia.
Qed.

Lemma Qtrunc_nonpos q : (q <= 0)%Q -> Qtrunc q = Qceiling q.
Proof.
  destruct q as [n d]. unfold Qle, Qtrunc, Qceiling, Qfloor. simpl. intros H.
  rewrite <- (Z.opp_involutive n) at 1. rewrite Z.quot_opp_l by lia.
  f_equal. apply Z.quot_div_nonneg; lia.
Qed.

Lemma Qtrunc_comp a b : (a == b)%Q -> Qtrunc a = Qtrunc b.
Proof.
  intros H. destruct (Qlt_le_dec a 0) as [Ha|Ha].
  - rewrite !Qtrunc_nonpos by lra. apply Qceiling_comp, H.
  - rewrite !Qtrunc_nonneg by lra. apply Qfloor_comp, H.
Qed.

Lemma Qtrunc_le a b : (a <= b)%Q -> Qtrunc a <= Qtrunc b.
Proof.
  intros H. destruct (Qlt_le_dec a 0) as [Ha|Ha], (Qlt_le_dec b 0) as [Hb|Hb].
  - rewrite !Qtrunc_nonpos by lra. apply Qceiling_resp_le, H.
  - rewrite (Qtrunc_nonpos a), (Qtrunc_nonneg b) by lra.
    transitivity 0.
    + change 0 with (Qceiling 0). apply Qceiling_resp_le. lra.
    + change 0 with (Qfloor 0). apply Qfloor_resp_le, Hb.
  - lra.
  - rewrite !Qtrunc_nonneg by lra. apply Qfloor_resp_le, H.
Qed.

Lemma Qtrunc_inject z : Qtrunc (inject_Z z) = z.
Proof. unfold Qtrunc. simpl. apply Z.quot_1_r. Qed.

Lemma clamp01_range x : (0 <= clamp01 x <= 1)%Q.
Proof.
  unfold clamp01, Qmax, Qmin.
  destruct (Qlt_le_dec x 1); destruct (Qlt_le_dec 0 _); lra.
Qed.

Lemma clamp01_cases x :
  ((x <= 0 -> clamp01 x == 0) /\ (0 <= x <= 1 -> clamp01 x == x) /\ (1 <= x -> clamp01 x == 1))%Q.
Proof.
  unfold clamp01, Qmax, Qmin.
  destruct (Qlt_le_dec x 1); destruct (Qlt_le_dec 0 _); repeat split; intros; lra.
Qed.

Lemma clamp01_le a b : (a <= b)%Q -> (clamp01 a <= clamp01 b)%Q.
Proof.
  intros H. unfold clamp01, Qmax, Qmin.
  destruct (Qlt_le_dec a 1), (Qlt_le_dec b 1);
    repeat match goal with |- context [Qlt_le_dec ?x ?y] => destruct (Qlt_le_dec x y) end; lra.
Qed.

Lemma clamp01_comp a b : (a == b)%Q -> (clamp01 a == clamp01 b)%Q.
Proof.
  intros H. apply Qle_antisym; apply clamp01_le; lra.
Qed.

Lemma scaled_channel k c :
  0 <= k <= 255 -> (0 <= c <= 1)%Q -> 0 <= Qtrunc (inject_Z k * c) <= 255.
Proof.
  intros Hk Hc.
  assert (H0 : (0 <= inject_Z k)%Q) by (rewrite <- (Zle_Qle 0); lia).
  assert (H1 : (inject_Z k <= 255)%Q) by (change 255%Q with (inject_Z 255); rewrite <- Zle_Qle; lia).
  split.
  - change 0 with (Qtrunc 0). apply Qtrunc_le. nra.
  - change 255 with (Qtrunc 255). apply Qtrunc_le. nra.
Qed.

(** ** Colour helpers *)



(** ** [parse_altitude] *)

Lemma foreign_char_inv c :
  foreign_char c = true ->
  is_digit c = false /\ is_space c = false /\ Ascii.eqb c "+" = false /\
  Ascii.eqb c "-" = false /\ Ascii.eqb c "_" = false.
Proof.
  unfold foreign_char. intros H. apply negb_true_iff in H.
  repeat (apply orb_false_iff in H; destruct H as [H ?]). auto.
Qed.

Lemma lstrip_foreign s : has_foreign_char s -> has_foreign_char (lstrip s).
Proof.
  unfold has_foreign_char. induction s as [|c s IH]; intros H; [exact H|].
  simpl. destruct (is_space c) eqn:Hc; [|exact H].
  apply IH. simpl in H. inversion H as [? ? Hf|]; subst; [|assumption].
  apply foreign_char_inv in Hf. destruct Hf as (_ & Hs & _). congruence.
Qed.

Lemma rstrip_foreign s : has_foreign_char s -> has_foreign_char (rstrip s).
Proof.
  unfold has_foreign_char. induction s as [|c s IH]; intros H; [exact H|].
  simpl in *. inversion H as [? ? Hf|? ? Hs]; subst.
  - destruct (rstrip s).
    + apply foreign_char_inv in Hf as Hf'. destruct Hf' as (_ & Hsp & _).
      rewrite Hsp. simpl. constructor. exact Hf.
    + simpl. constructor. exact Hf.
  - specialize (IH Hs). destruct (rstrip s) eqn:Hr.
    + inversion IH.
    + simpl. apply Exists_cons_tl. exact IH.
Qed.

Lemma digits_val_foreign s acc prev : has_foreign_char s -> digits_val s acc prev = None.
Proof.
  unfold has_foreign_char. revert acc prev.
  induction s as [|c s IH]; intros acc prev H; [inversion H|].
  simpl in *. inversion H as [? ? Hf|? ? Hs]; subst.
  - apply foreign_char_inv in Hf. destruct Hf as (Hd & _ & _ & _ & Hu).
    rewrite Hd, Hu. reflexivity.
  - destruct (is_digit c); [apply IH, Hs|].
    destruct (Ascii.eqb c "_"); [|reflexivity].
    destruct prev; [apply IH, Hs | reflexivity].
Qed.

Lemma int_of_str_foreign s : has_foreign_char s -> int_of_str s = None.
Proof.
  intros H. unfold int_of_str.
  assert (Hs : has_foreign_char (strip s)) by (apply rstrip_foreign, lstrip_foreign, H).
  destruct (strip s) as [|c r] eqn:E; [inversion Hs|].
  assert (Hr : Ascii.eqb c "+" = true \/ Ascii.eqb c "-" = true -> has_foreign_char r).
  { intros Hc. unfold has_foreign_char in *. simpl in Hs.
    inversion Hs as [? ? Hf|]; subst; [|assumption].
    apply foreign_char_inv in Hf. destruct Hf as (_ & _ & Hp & Hm & _).
    destruct Hc; congruence. }
  destruct (Ascii.eqb c "+") eqn:Hp.
  { apply Ascii.eqb_eq in Hp. subst c. apply digits_val_foreign. auto. }
  destruct (Ascii.eqb c "-") eqn:Hm.
  { apply Ascii.eqb_eq in Hm. subst c. rewrite digits_val_foreign by auto. reflexivity. }
  assert (G : digits_val (String c r) 0 false = None) by (apply digits_val_foreign, Hs).
  destruct c as [[] [] [] [] [] [] [] []]; try exact G; discriminate.
Qed.

Lemma int_of_str_blank s : strip s = EmptyString -> int_of_str s = None.
Proof. intros H. unfold int_of_str. rewrite H. reflexivity. Qed.



(** ** The route cache *)

Ltac run_monad :=
  unfold fetch_route_info, fetch_aircraft, lookup_route, try_except, http_get,
    raise_for_status, json, lift, set_cache, get_cache, raise, ret,
    mbind, mret, M_bind, M_ret, bind, ret in *;
  cbn beta iota.

Section Fetcher.

Variable net : nat -> request -> reply.

Lemma fetch_route_info_hit callsign r s :
  callsign_cache s !! callsign = Some r ->
  fetch_route_info net callsign s = (Ok r, s).
Proof. intros H. unfold fetch_route_info. rewrite H. reflexivity. Qed.

Lemma fetch_route_info_empty s :
  callsign_cache s !! ""%string = None ->
  fetch_route_info net "" s = (Ok NA, cached "" NA s).
Proof.
  intros H. run_monad. rewrite H. cbn. rewrite lookup_insert_eq. reflexivity.
Qed.

Lemma fetch_route_info_miss callsign s :
  callsign <> ""%string ->
  callsign_cache s !! callsign = None ->
  fetch_route_info net callsign s =
    let rq := GetCallsign callsign in
    let r := route_of_reply (net (length (sent s)) rq) in
    (Ok r, cached callsign r (requested rq s)).
Proof.
  intros Hne H. run_monad. rewrite H.
  apply String.eqb_neq in Hne. rewrite Hne. cbn.
  destruct (net (length (sent s)) (GetCallsign callsign)) as [|resp]; cbn.
  { rewrite lookup_insert_eq. reflexivity. }
  destruct (status_error resp); cbn.
  { rewrite lookup_insert_eq. reflexivity. }
  destruct (json_body resp) as [j|]; cbn.
  2: { rewrite lookup_insert_eq. reflexivity. }
  destruct (parse_route j) as [rt|e]; cbn; rewrite lookup_insert_eq; reflexivity.
Qed.

Lemma route_of_reply_fails rep : lookup_fails rep = true -> route_of_reply rep = NA.
Proof.
  destruct rep as [|r]; [reflexivity|]. simpl.
  destruct (status_error r); [reflexivity|]. simpl.
  destruct (json_body r) as [j|]; [|reflexivity].
  destruct (parse_route j); [discriminate | reflexivity].
Qed.

End Fetcher.

(** C3. For every callsign, the empty string included, and every state:
    the first [fetch_route_info] returns a route [r]; a second call with
    the same callsign right after it returns the same [r] and leaves the
    state, and with it the list of requests sent, as it was, whatever the
    network would have answered. *)
Theorem second_lookup_is_cached (net net' : nat -> request -> reply) (callsign : string) (s : state) :
  exists r s1,
    fetch_route_info net callsign s = (Ok r, s1) /\
    fetch_route_info net' callsign s1 = (Ok r, s1) /\
    sent (fetch_route_info net' callsign s1).2 = sent s1.
Proof.
  destruct (callsign_cache s !! callsign) as [r|] eqn:H.
  - exists r, s. rewrite !(fetch_route_info_hit _ _ _ _ H). auto.
  - destruct (String.eqb_spec callsign "") as [->|Hne].
    + exists NA, (cached "" NA s). rewrite (fetch_route_info_empty _ _ H).
      rewrite (fetch_route_info_hit net' "" NA) by apply lookup_insert_eq. auto.
    + rewrite (fetch_route_info_miss _ _ _ Hne H). cbv zeta.
      eexists _, _. split; [reflexivity|].
      rewrite (fetch_route_info_hit net' callsign _ _ (lookup_insert_eq _ _ _)). auto.
Qed.

(** ** What each operation leaves untouched *)

#[export] Instance cache_kept_preorder : PreOrder cache_kept.
Proof. split; [intros s k r H; exact H | intros a b c H1 H2 k r H; auto]. Qed.

#[export] Instance quiet_preorder : PreOrder quiet.
Proof.
  split.
  - intros s. repeat split. reflexivity.
  - intros a b c (H1 & H2 & H3) (H4 & H5 & H6). repeat split; try congruence.
    etransitivity; eassumption.
Qed.

Lemma quiet_cache_kept s s' : quiet s s' -> cache_kept s s'.
Proof. intros (_ & _ & H). exact H. Qed.

Section Preserves.

Context (R : state -> state -> Prop) `{!PreOrder R}.

Lemma preserves_ret {A} (a : A) : preserves R (mret a : M A).
Proof. intros s. reflexivity. Qed.

Lemma preserves_raise {A} e : preserves R (raise e : M A).
Proof. intros s. reflexivity. Qed.

Lemma preserves_lift {A} (x : outcome A) : preserves R (lift x).
Proof. intros s. reflexivity. Qed.

Lemma preserves_bind {A B} (m : M A) (f : A -> M B) :
  preserves R m -> (forall a, preserves R (f a)) -> preserves R (m ≫= f).
Proof.
  intros Hm Hf s. unfold mbind, M_bind, bind. specialize (Hm s).
  destruct (m s) as [[a|e] s1]; simpl in *; [|exact Hm].
  etransitivity; [exact Hm | apply Hf].
Qed.

Lemma preserves_try {A} (m : M A) (h : exn -> M A) :
  preserves R m -> (forall e, preserves R (h e)) -> preserves R (try_except m h).
Proof.
  intros Hm Hh s. unfold try_except. specialize (Hm s).
  destruct (m s) as [[a|e] s1]; simpl in *; [exact Hm|].
  etransitivity; [exact Hm | apply Hh].
Qed.

End Preserves.

Ltac preserve_step :=
  first
    [ apply preserves_ret; exact _
    | apply preserves_raise; exact _
    | apply preserves_lift; exact _
    | apply preserves_bind; [exact _ | | intros ?]
    | apply preserves_try; [exact _ | | intros ?] ].

Section Effects.

Variable lm : libm.
Variable net : nat -> request -> reply.
Variable panel : display.

Lemma quiet_http_get rq : preserves quiet (http_get net rq).
Proof.
  intros s. unfold http_get. destruct (net _ _) as [|resp]; repeat split; intros k r H; exact H.
Qed.

Lemma quiet_show f : preserves quiet (show f).
Proof. intros s. repeat split. intros k r H; exact H. Qed.

Lemma quiet_raise_for_status r : preserves quiet (raise_for_status r).
Proof. unfold raise_for_status. destruct (status_error r); preserve_step. Qed.

Lemma quiet_json r : preserves quiet (json r).
Proof. unfold json. destruct (json_body r); preserve_step. Qed.

Lemma quiet_cached k r s : callsign_cache s !! k = None -> quiet s (cached k r s).
Proof.
  intros H. repeat split. intros k' r' H'. simpl.
  rewrite lookup_insert_ne; [exact H' | congruence].
Qed.

Lemma quiet_requested rq s : quiet s (requested rq s).
Proof. repeat split. intros k r H; exact H. Qed.

Lemma quiet_fetch_route_info callsign : preserves quiet (fetch_route_info net callsign).
Proof.
  intros s. destruct (callsign_cache s !! callsign) as [r|] eqn:H.
  - rewrite (fetch_route_info_hit _ _ _ _ H). reflexivity.
  - destruct (String.eqb_spec callsign "") as [->|Hne].
    + rewrite (fetch_route_info_empty _ _ H). apply quiet_cached, H.
    + rewrite (fetch_route_info_miss _ _ _ Hne H). cbv zeta. simpl.
      etransitivity; [apply (quiet_requested (GetCallsign callsign))|].
      apply quiet_cached. exact H.
Qed.

Lemma quiet_fetch_aircraft lat lon radius : preserves quiet (fetch_aircraft net lat lon radius).
Proof.
  unfold fetch_aircraft.
  repeat first [apply quiet_http_get | apply quiet_raise_for_status
               | apply quiet_json | preserve_step].
Qed.

Lemma quiet_fetch_logo airline : preserves quiet (fetch_logo net airline).
Proof.
  unfold fetch_logo. destruct airline; try preserve_step.
  destruct (AIRLINE_LOGO_DOMAINS !! s); [|preserve_step].
  destruct (String.eqb _ _); [preserve_step|].
  repeat first [apply quiet_http_get | apply quiet_raise_for_status | preserve_step].
  destruct (image_body _); preserve_step.
Qed.

Lemma quiet_draw aircraft loc_name home_coords :
  preserves quiet (draw lm net panel aircraft loc_name home_coords).
Proof.
  unfold draw. destruct aircraft; [preserve_step|].
  repeat first [apply quiet_fetch_logo | apply quiet_show | preserve_step].
Qed.

Lemma quiet_enrich aircraft enriched : preserves quiet (enrich net aircraft enriched).
Proof.
  revert enriched. induction aircraft as [|ac rest IH]; intros enriched; simpl.
  - preserve_step.
  - repeat first [apply quiet_fetch_route_info | preserve_step].
    destruct a1 as [[airline origin] dest].
    destruct (py_ne_str airline "N/A"); [|apply IH].
    preserve_step; [preserve_step | apply IH].
Qed.

Lemma quiet_current_location : preserves quiet current_location.
Proof.
  intros s. unfold current_location. destruct (LOCATIONS !! idx s); reflexivity.
Qed.

Lemma cache_kept_weaken {A} (m : M A) : preserves quiet m -> preserves cache_kept m.
Proof. intros H s. apply quiet_cache_kept, H. Qed.

Lemma cache_kept_set_rotation i t : preserves cache_kept (set_rotation i t).
Proof. intros s k r H. exact H. Qed.

Lemma cache_kept_rotate_if_due now : preserves cache_kept (rotate_if_due now).
Proof.
  intros s. unfold rotate_if_due. destruct (Qle_bool _ _); [apply cache_kept_set_rotation|reflexivity].
Qed.

Lemma cache_kept_skip_ahead now : preserves cache_kept (skip_ahead now).
Proof. intros s. apply cache_kept_set_rotation. Qed.

(** The part of [gather] that follows the timed rotation. *)
Lemma quiet_gather_tail :
  preserves quiet
    (loc ← current_location;
     aircraft ← fetch_aircraft net (loc_lat loc) (loc_lon loc) (loc_radius loc);
     items ← lift (py_iter aircraft);
     enriched ← enrich net items [];
     mret (loc, enriched)).
Proof.
  repeat first [apply quiet_current_location | apply quiet_fetch_aircraft
               | apply quiet_enrich | preserve_step].
Qed.

Lemma cache_kept_gather now : preserves cache_kept (gather net now).
Proof.
  unfold gather. apply preserves_bind; [apply _ | apply cache_kept_rotate_if_due |].
  intros _. apply cache_kept_weaken, quiet_gather_tail.
Qed.

Lemma cache_kept_run_body now : preserves cache_kept (run_body lm net panel now).
Proof.
  unfold run_body. apply preserves_bind; [apply _ | apply cache_kept_gather |].
  intros [loc enriched]. simpl. destruct enriched.
  - apply cache_kept_skip_ahead.
  - apply cache_kept_weaken, quiet_draw.
Qed.

Lemma cache_kept_run clock : preserves cache_kept (run lm net panel clock).
Proof.
  induction clock as [|now later IH]; simpl.
  - apply preserves_ret. apply _.
  - apply preserves_bind; [apply _ | apply cache_kept_run_body | intros _; exact IH].
Qed.

End Effects.

(** C7. When the lookup for a non-empty callsign that is not cached fails
    (no response, error status, body that is not JSON, or JSON in which a
    [.get] meets a non-object), [fetch_route_info] returns the all-["N/A"]
    route and stores it under the callsign after its one request; after
    any number of further loop iterations, a call for that callsign
    returns the same route with no request and no state change. *)
Theorem failed_lookup_is_never_retried
    (lm : libm) (net net' : nat -> request -> reply) (panel : display)
    (callsign : string) (s : state) (clock : list Q) :
  callsign <> ""%string ->
  callsign_cache s !! callsign = None ->
  lookup_fails (net (length (sent s)) (GetCallsign callsign)) = true ->
  exists s1,
    fetch_route_info net callsign s = (Ok NA, s1) /\
    callsign_cache s1 !! callsign = Some NA /\
    sent s1 = sent s ++ [GetCallsign callsign] /\
    let s2 := (run lm net' panel clock s1).2 in
    fetch_route_info net' callsign s2 = (Ok NA, s2).
Proof.
  intros Hne Hmiss Hfail.
  rewrite (fetch_route_info_miss _ _ _ Hne Hmiss). cbv zeta.
  rewrite (route_of_reply_fails _ Hfail).
  eexists. split; [reflexivity|].
  assert (Hin : callsign_cache (cached callsign NA (requested (GetCallsign callsign) s))
                  !! callsign = Some NA) by apply lookup_insert_eq.
  split; [exact Hin|]. split; [reflexivity|].
  apply fetch_route_info_hit.
  apply (cache_kept_run lm net' panel clock _ _ _ Hin).
Qed.

Lemma failed_lookup_is_never_retried_witness :
  exists s1,
    fetch_route_info silent_net "AAL1" (init 0) = (Ok NA, s1) /\
    callsign_cache s1 !! "AAL1"%string = Some NA /\
    sent s1 = sent (init 0) ++ [GetCallsign "AAL1"] /\
    let s2 := (run series_libm (one_aircraft_net equator_aircraft) inky_panel
                 [10; 20]%Q s1).2 in
    fetch_route_info (one_aircraft_net equator_aircraft) "AAL1" s2 = (Ok NA, s2).
Proof.
  apply (failed_lookup_is_never_retried series_libm silent_net
           (one_aircraft_net equator_aircraft) inky_panel "AAL1" (init 0) [10; 20]%Q).
  - discriminate.
  - reflexivity.
  - reflexivity.
Defined.

(** ** The position fetch *)

Lemma fetch_aircraft_eq net lat lon radius s :
  fetch_aircraft net lat lon radius s =
    let rq := GetPoint lat lon radius in
    (Ok (aircraft_of_reply (net (length (sent s)) rq)), requested rq s).
Proof.
  unfold fetch_aircraft, try_except, http_get, raise_for_status, json, lift,
    mbind, M_bind, bind, raise, ret. cbv zeta.
  destruct (net (length (sent s)) (GetPoint lat lon radius)) as [|resp]; [reflexivity|].
  cbn. destruct (status_error resp); [reflexivity|]. cbn.
  destruct (json_body resp) as [j|]; [|reflexivity].
  destruct j; try reflexivity. cbn.
  destruct (d !! "ac"%string) as [v|]; [|reflexivity].
  destruct v; reflexivity.
Qed.




(** ** Area rotation *)

Section Rotation.

Variable lm : libm.
Variable net : nat -> request -> reply.
Variable panel : display.

Lemma rotate_if_due_due now s :
  (switch_interval <= now - last_switch s)%Q ->
  rotate_if_due now s = (Ok tt, advanced now s).
Proof.
  intros H. unfold rotate_if_due. apply Qle_bool_iff in H. rewrite H. reflexivity.
Qed.

Lemma rotate_if_due_early now s :
  (now - last_switch s < switch_interval)%Q ->
  rotate_if_due now s = (Ok tt, s).
Proof.
  intros H. unfold rotate_if_due.
  destruct (Qle_bool _ _) eqn:E; [|reflexivity].
  apply Qle_bool_iff in E. lra.
Qed.

Lemma rotate_if_due_ok now s : (rotate_if_due now s).1 = Ok tt.
Proof. unfold rotate_if_due. destruct (Qle_bool _ _); reflexivity. Qed.

Lemma next_idx_spec i : next_idx i = ((i + 1) mod 3)%nat /\ (next_idx i < 3)%nat.
Proof.
  unfold next_idx. simpl length. split; [reflexivity|].
  apply Nat.mod_upper_bound. lia.
Qed.

Lemma gather_after_rotation now s :
  quiet (rotate_if_due now s).2 (gather net now s).2.
Proof.
  unfold gather. unfold mbind at 1. unfold M_bind, bind.
  pose proof (rotate_if_due_ok now s) as Hok.
  destruct (rotate_if_due now s) as [o s0]. simpl in Hok. subst o. simpl.
  apply (quiet_gather_tail net).
Qed.

Lemma run_body_skip now s loc s1 :
  gather net now s = (Ok (loc, []), s1) ->
  run_body lm net panel now s = (Ok tt, advanced now s1).
Proof.
  intros H. unfold run_body, mbind, M_bind, bind. rewrite H. reflexivity.
Qed.

Lemma run_body_draw now s loc ac rest s1 :
  gather net now s = (Ok (loc, ac :: rest), s1) ->
  run_body lm net panel now s = draw lm net panel (ac :: rest) (loc_name loc) HOME_COORDS s1.
Proof.
  intros H. unfold run_body, mbind, M_bind, bind. rewrite H. reflexivity.
Qed.

End Rotation.

(** C4. At the top of an iteration the index moves to the next area,
    modulo the length of [LOCATIONS], and the timestamp is reset when 300
    seconds or more have passed since the last switch; otherwise the
    state is unchanged.  When the [for] loop leaves no enriched aircraft
    the iteration completes and the index moves one area further,
    whatever the elapsed time.  When it leaves some, the index is not
    moved again in that iteration. *)
Theorem area_rotation (lm : libm) (net : nat -> request -> reply) (panel : display)
    (now : Q) (s : state) :
  let s0 := (rotate_if_due now s).2 in
  ((300 <= now - last_switch s)%Q ->
     idx s0 = ((idx s + 1) mod length LOCATIONS)%nat /\ last_switch s0 = now) /\
  ((now - last_switch s < 300)%Q -> s0 = s) /\
  (forall loc s1, gather net now s = (Ok (loc, []), s1) ->
     exists s2, run_body lm net panel now s = (Ok tt, s2) /\
                idx s2 = ((idx s0 + 1) mod length LOCATIONS)%nat) /\
  (forall loc ac rest s1, gather net now s = (Ok (loc, ac :: rest), s1) ->
     idx (run_body lm net panel now s).2 = idx s0).
Proof.
  cbv zeta. repeat split.
  - rewrite rotate_if_due_due by assumption. reflexivity.
  - rewrite rotate_if_due_due by assumption. reflexivity.
  - intros H. rewrite rotate_if_due_early by assumption. reflexivity.
  - intros loc s1 H. exists (advanced now s1).
    split; [apply (run_body_skip _ _ _ _ _ _ _ H)|].
    pose proof (gather_after_rotation net now s) as (Hi & _).
    rewrite H in Hi. simpl in *. unfold next_idx. rewrite Hi. reflexivity.
  - intros loc ac rest s1 H. rewrite (run_body_draw _ _ _ _ _ _ _ _ _ H).
    pose proof (quiet_draw lm net panel (ac :: rest) (loc_name loc) HOME_COORDS s1) as (Hi & _).
    pose proof (gather_after_rotation net now s) as (Hj & _).
    rewrite H in Hj. simpl in Hj. congruence.
Qed.

Lemma area_rotation_witness :
  (idx (rotate_if_due 400 (init 0)).2 = 1%nat /\
   last_switch (rotate_if_due 400 (init 0)).2 = 400%Q) /\
  (rotate_if_due 100 (init 0)).2 = init 0 /\
  (exists s2, run_body series_libm silent_net inky_panel 400 (init 0) = (Ok tt, s2) /\
              idx s2 = 2%nat) /\
  idx (run_body series_libm (one_aircraft_net equator_aircraft) inky_panel 400 (init 0)).2
    = 1%nat.
Proof.
  split; [|split; [|split]].
  - apply (proj1 (area_rotation series_libm silent_net inky_panel 400 (init 0))).
    vm_compute. discriminate.
  - apply (proj1 (proj2 (area_rotation series_libm silent_net inky_panel 100 (init 0)))).
    vm_compute. reflexivity.
  - eapply (proj1 (proj2 (proj2 (area_rotation series_libm silent_net inky_panel 400 (init 0))))).
    vm_compute. reflexivity.
  - eapply (proj2 (proj2 (proj2 (area_rotation series_libm
              (one_aircraft_net equator_aircraft) inky_panel 400 (init 0))))).
    vm_compute. reflexivity.
Defined.

Lemma last_cons_indep {A} (l : list A) : forall a d d',
  List.last (a :: l) d = List.last (a :: l) d'.
Proof.
  induction l as [|b l IH]; intros a d d'; [reflexivity|].
  change (List.last (b :: l) d = List.last (b :: l) d'). apply IH.
Qed.

Lemma run_body_empty_skies lm net panel now s :
  empty_skies net -> (idx s < length LOCATIONS)%nat ->
  (now - last_switch s < switch_interval)%Q ->
  exists s1,
    run_body lm net panel now s = (Ok tt, advanced now s1) /\
    idx s1 = idx s /\ length (sent s1) = S (length (sent s)).
Proof.
  intros Hnet Hidx Hearly.
  assert (exists loc, LOCATIONS !! idx s = Some loc) as [loc Hloc].
  { apply lookup_lt_is_Some_2 in Hidx. destruct Hidx as [loc ?]. eauto. }
  eexists. split.
  - eapply run_body_skip. unfold gather, mbind, M_bind, bind.
    rewrite (rotate_if_due_early _ _ Hearly). unfold current_location. rewrite Hloc.
    rewrite fetch_aircraft_eq. cbv zeta. rewrite Hnet. reflexivity.
  - split; [reflexivity|]. simpl. rewrite length_app. simpl. lia.
Qed.

Lemma run_empty_skies lm net panel clock : forall s,
  empty_skies net -> (idx s < length LOCATIONS)%nat -> paced (last_switch s) clock ->
  exists s',
    run lm net panel clock s = (Ok tt, s') /\
    idx s' = ((idx s + length clock) mod length LOCATIONS)%nat /\
    last_switch s' = List.last clock (last_switch s) /\
    length (sent s') = (length (sent s) + length clock)%nat.
Proof.
  induction clock as [|now later IH]; intros s Hnet Hidx Hp.
  - exists s. split; [reflexivity|]. split.
    { change (length (@nil Q)) with 0%nat.
      rewrite Nat.add_0_r, Nat.mod_small by assumption. reflexivity. }
    split; [reflexivity|]. simpl. lia.
  - destruct Hp as [Hearly Hp].
    destruct (run_body_empty_skies lm net panel now s Hnet Hidx Hearly) as (s1 & Hrun & Hi & Hs).
    destruct (IH (advanced now s1) Hnet) as (s' & Hrun' & Hi' & Hl' & Hs').
    { apply next_idx_spec. }
    { exact Hp. }
    exists s'. split.
    { simpl. unfold mbind, M_bind, bind. rewrite Hrun. exact Hrun'. }
    split.
    { rewrite Hi'. simpl idx. unfold next_idx. rewrite Hi. simpl length.
      rewrite Nat.Div0.add_mod_idemp_l. f_equal. lia. }
    split.
    { rewrite Hl'. simpl last_switch. destruct later as [|q later]; [reflexivity|].
      change (List.last (now :: q :: later) (last_switch s))
        with (List.last (q :: later) (last_switch s)).
      apply last_cons_indep. }
    rewrite Hs'. simpl. lia.
Qed.

(** C5. An iteration that leaves no enriched aircraft sets [last_switch]
    to the time read at the top of the iteration.  So while no area has
    aircraft, iterations less than 300 seconds apart move the index by one
    area each: after as many iterations as there are areas the whole list
    has been visited. *)
Theorem skip_resets_timer (lm : libm) (net : nat -> request -> reply) (panel : display) :
  (forall now s loc s1, gather net now s = (Ok (loc, []), s1) ->
     last_switch (run_body lm net panel now s).2 = now) /\
  (forall clock s,
     empty_skies net -> (idx s < length LOCATIONS)%nat -> paced (last_switch s) clock ->
     exists s',
       run lm net panel clock s = (Ok tt, s') /\
       idx s' = ((idx s + length clock) mod length LOCATIONS)%nat /\
       last_switch s' = List.last clock (last_switch s)).
Proof.
  split.
  - intros now s loc s1 H. rewrite (run_body_skip _ _ _ _ _ _ _ H). reflexivity.
  - intros clock s Hnet Hidx Hp.
    destruct (run_empty_skies lm net panel clock s Hnet Hidx Hp) as (s' & H1 & H2 & H3 & _).
    eauto.
Qed.

Lemma skip_resets_timer_witness :
  last_switch (run_body series_libm silent_net inky_panel 10 (init 0)).2 = 10%Q /\
  exists s',
    run series_libm silent_net inky_panel [10; 20; 30]%Q (init 0) = (Ok tt, s') /\
    idx s' = ((0 + 3) mod 3)%nat /\ last_switch s' = 30%Q.
Proof.
  split.
  - eapply (proj1 (skip_resets_timer series_libm silent_net inky_panel)).
    vm_compute. reflexivity.
  - apply (proj2 (skip_resets_timer series_libm silent_net inky_panel)
             [10; 20; 30]%Q (init 0)).
    + intros n lat lon radius. reflexivity.
    + simpl. lia.
    + simpl. repeat split.
Defined.

(** ** Rendering *)

Section Rendering.

Variable lm : libm.

Lemma derive_inv d home_coords f :
  derive lm (PDict d) home_coords = Ok f ->
  exists callsign alt speed dist_km,
    py_strip (default (PStr "N/A") (d !! "flight"%string)) = Ok callsign /\
    parse_altitude (default PNone (d !! "alt_baro"%string)) = Ok alt /\
    py_int (py_or (default PNone (d !! "gs"%string)) (PInt 0)) = Ok speed /\
    distance_from lm home_coords (default PNone (d !! "lat"%string))
                                 (default PNone (d !! "lon"%string)) = Ok dist_km /\
    f = {| f_callsign := callsign; f_alt := alt; f_speed := speed;
           f_airline := default (PStr "N/A") (d !! "airline_name"%string);
           f_origin := default (PStr "N/A") (d !! "origin_name"%string);
           f_dest := default (PStr "N/A") (d !! "destination_name"%string);
           f_dist_km := dist_km;
           f_dist_mi := (dist_km * (621371 # 1000000))%Q;
           f_speed_mph := (inject_Z speed * (115078 # 100000))%Q |}.
Proof.
  unfold derive, py_get, obind. intros H.
  destruct (py_strip _) as [callsign|] eqn:E1; [|discriminate].
  destruct (parse_altitude _) as [alt|] eqn:E2; [|discriminate].
  destruct (py_int _) as [speed|] eqn:E3; [|discriminate].
  destruct (distance_from _ _ _ _) as [dist_km|] eqn:E4; [|discriminate].
  injection H as <-. exists callsign, alt, speed, dist_km. auto.
Qed.

Lemma Qtrunc_toward_zero q :
  ((0 <= q -> inject_Z (Qtrunc q) <= q < inject_Z (Qtrunc q) + 1) /\
   (q <= 0 -> inject_Z (Qtrunc q) - 1 < q <= inject_Z (Qtrunc q)))%Q.
Proof.
  split; intros H.
  - rewrite Qtrunc_nonneg by exact H. split; [apply Qfloor_le|].
    pose proof (Qlt_floor q) as L. rewrite inject_Z_plus in L. exact L.
  - rewrite Qtrunc_nonpos by exact H. split; [|apply Qle_ceiling].
    pose proof (Qceiling_lt q) as L.
    unfold Z.sub in L. rewrite inject_Z_plus in L. exact L.
Qed.

Lemma falsy_speed v :
  py_truthy v = false -> py_int (py_or v (PInt 0)) = Ok 0.
Proof. intros H. unfold py_or. rewrite H. reflexivity. Qed.

Lemma float_speed q : py_int (py_or (PFloat q) (PInt 0)) = Ok (Qtrunc q).
Proof.
  unfold py_or. simpl. destruct (Qeq_bool q 0) eqn:E; simpl; [|reflexivity].
  apply Qeq_bool_iff in E. rewrite (Qtrunc_comp q 0 E). reflexivity.
Qed.

End Rendering.



(** C2, at the failing input.  An aircraft at latitude 0.0 and longitude
    -97.0 has both coordinates present, yet [lat and lon] is falsy: the
    derived distance is 0 and the line reads ["Distance: 0.0 mi"], whatever
    the C library computes, while the haversine distance from the home
    location is about 3447 km. *)
Theorem zero_coordinate_shows_no_distance (lm : libm) :
  exists f,
    derive lm equator_aircraft HOME_COORDS = Ok f /\
    f_dist_km f = 0%Q /\
    line_text <$> layout f "Austin" !! 5%nat = Some [Lit "Distance: "; Lit "0.0"; Lit " mi"] /\
    Qfloor (haversine series_libm HOME_COORDS.1 HOME_COORDS.2 0 (-(97))) = 3447.
Proof.
  eexists. split; [vm_compute; reflexivity|]. repeat split.
Qed.

(** C1, at the failing input.  The position service reports one aircraft
    whose ["gs"] is the text ["fast"] and whose callsign resolves to an
    airline: [int(ac.get("gs") or 0)] raises [ValueError] in [draw], no
    handler catches it, and the loop ends in its first iteration.  The
    same text as ["alt_baro"] is read as 0 by [parse_altitude]. *)
Theorem text_ground_speed_stops_the_loop (lm : libm) (panel : display) (later : list Q) :
  parse_altitude (PStr "fast") = Ok 0 /\
  (run lm (one_aircraft_net text_speed_aircraft) panel (10%Q :: later) (init 0)).1
    = Raise ValueError.
Proof.
  split; [reflexivity|].
  cbn [run]. unfold mbind, M_bind, bind.
  assert (H : (run_body lm (one_aircraft_net text_speed_aircraft) panel 10 (init 0)).1
              = Raise ValueError) by (vm_compute; reflexivity).
  destruct (run_body _ _ _ _ _) as [[|e] s1]; simpl in H; [discriminate|].
  simpl. exact H.
Qed.

(** * Further properties *)

(** ** Great-circle distance *)

Lemma first_order_libm_laws : libm_laws first_order_libm.
Proof.
  split; simpl; try reflexivity; repeat intro; try assumption; reflexivity.
Qed.

Section Haversine.

Variable lm : libm.
Hypothesis laws : libm_laws lm.

#[local] Instance sin_proper' : Proper (Qeq ==> Qeq) (m_sin lm) := sin_proper lm laws.
#[local] Instance cos_proper' : Proper (Qeq ==> Qeq) (m_cos lm) := cos_proper lm laws.
#[local] Instance sqrt_proper' : Proper (Qeq ==> Qeq) (m_sqrt lm) := sqrt_proper lm laws.
#[local] Instance atan2_proper' : Proper (Qeq ==> Qeq ==> Qeq) (m_atan2 lm) := atan2_proper lm laws.

Lemma sin_half_difference_sq a b :
  (m_sin lm (radians lm (a - b) / 2) ^ 2 == m_sin lm (radians lm (b - a) / 2) ^ 2)%Q.
Proof.
  assert (E : (radians lm (a - b) / 2 == - (radians lm (b - a) / 2))%Q).
  { unfold radians. field. }
  rewrite E, (sin_odd lm laws). ring.
Qed.

Lemma haversine_sym lat1 lon1 lat2 lon2 :
  (haversine lm lat1 lon1 lat2 lon2 == haversine lm lat2 lon2 lat1 lon1)%Q.
Proof.
  unfold haversine. cbv zeta.
  assert (Ea :
    (m_sin lm (radians lm (lat2 - lat1) / 2) ^ 2
       + m_cos lm (radians lm lat1) * m_cos lm (radians lm lat2)
         * m_sin lm (radians lm (lon2 - lon1) / 2) ^ 2
     == m_sin lm (radians lm (lat1 - lat2) / 2) ^ 2
       + m_cos lm (radians lm lat2) * m_cos lm (radians lm lat1)
         * m_sin lm (radians lm (lon1 - lon2) / 2) ^ 2)%Q).
  { rewrite (sin_half_difference_sq lat2 lat1), (sin_half_difference_sq lon2 lon1). ring. }
  rewrite Ea. reflexivity.
Qed.

Lemma haversine_same lat lon : (haversine lm lat lon lat lon == 0)%Q.
Proof.
  unfold haversine. cbv zeta.
  assert (Z0 : forall x, (m_sin lm (radians lm (x - x) / 2) == 0)%Q).
  { intros x. assert (E : (radians lm (x - x) / 2 == 0)%Q) by (unfold radians; field).
    rewrite E. apply (sin_0 lm laws). }
  assert (Ea :
    (m_sin lm (radians lm (lat - lat) / 2) ^ 2
       + m_cos lm (radians lm lat) * m_cos lm (radians lm lat)
         * m_sin lm (radians lm (lon - lon) / 2) ^ 2 == 0)%Q).
  { rewrite !Z0. ring. }
  rewrite Ea.
  assert (E1 : (1 - 0 == 1)%Q) by ring.
  rewrite E1, (sqrt_0 lm laws), (sqrt_1 lm laws), (atan2_0_1 lm laws). ring.
Qed.

End Haversine.

(** X1. For any C library whose functions depend on the value of their
    argument only, whose sine is odd and whose values at the origin are
    exact, [haversine] gives the same distance in both directions and the
    distance 0 from a point to itself. *)
Theorem haversine_symmetric (lm : libm) (lat1 lon1 lat2 lon2 : Q) :
  libm_laws lm ->
  (haversine lm lat1 lon1 lat2 lon2 == haversine lm lat2 lon2 lat1 lon1)%Q /\
  (haversine lm lat1 lon1 lat1 lon1 == 0)%Q.
Proof.
  intros laws. split; [apply haversine_sym | apply haversine_same]; exact laws.
Qed.

Lemma haversine_symmetric_witness :
  (haversine first_order_libm 31 (-(97)) (303 # 10) (-(977 # 10))
     == haversine first_order_libm (303 # 10) (-(977 # 10)) 31 (-(97)))%Q /\
  (haversine first_order_libm 31 (-(97)) 31 (-(97)) == 0)%Q.
Proof.
  apply (haversine_symmetric first_order_libm 31 (-(97)) (303 # 10) (-(977 # 10))).
  exact first_order_libm_laws.
Defined.



(** ** Colour saturation *)

Lemma Qtrunc_quotient n d : 0 <= n -> Qtrunc (n # d) = n / Z.pos d.
Proof. intros H. unfold Qtrunc. simpl. apply Z.quot_div_nonneg; lia. Qed.

Lemma clamped_low k x : (x <= 0)%Q -> Qtrunc (k * Qmax 0 (Qmin 1 x)) = 0.
Proof.
  intros H. change (Qmax 0 (Qmin 1 x)) with (clamp01 x).
  rewrite (Qtrunc_comp _ 0); [reflexivity|].
  rewrite (proj1 (clamp01_cases x) H). ring.
Qed.

Lemma clamped_high k x : (1 <= x)%Q -> Qtrunc (inject_Z k * Qmax 0 (Qmin 1 x)) = k.
Proof.
  intros H. change (Qmax 0 (Qmin 1 x)) with (clamp01 x).
  rewrite (Qtrunc_comp _ (inject_Z k)); [apply Qtrunc_inject|].
  rewrite (proj2 (proj2 (clamp01_cases x)) H). ring.
Qed.

Lemma clamped_inside k x :
  (0 <= x <= 1)%Q -> Qtrunc (k * Qmax 0 (Qmin 1 x)) = Qtrunc (k * x).
Proof.
  intros H. change (Qmax 0 (Qmin 1 x)) with (clamp01 x).
  apply Qtrunc_comp. rewrite (proj1 (proj2 (clamp01_cases x)) H). reflexivity.
Qed.



(** ** Route lookups *)

(** X4. Reading a route out of a JSON object: when ["response"], its
    ["flightroute"] and that object's ["airline"], ["origin"] and
    ["destination"] are each absent or an object, the three names are read
    independently, each defaulting to ["N/A"] when its object or its
    ["name"] is absent; when one of the five holds anything else, the
    reading raises [AttributeError] (which [fetch_route_info] catches). *)
Theorem parse_route_fields (top : gmap string pyval) :
  let r := match top !! "response"%string with Some (PDict d) => d | _ => ∅ end in
  let fr := match r !! "flightroute"%string with Some (PDict d) => d | _ => ∅ end in
  (object_or_absent (top !! "response"%string) = true ->
   object_or_absent (r !! "flightroute"%string) = true ->
   object_or_absent (fr !! "airline"%string) = true ->
   object_or_absent (fr !! "origin"%string) = true ->
   object_or_absent (fr !! "destination"%string) = true ->
   parse_route (PDict top)
     = Ok (name_under (fr !! "airline"%string), name_under (fr !! "origin"%string),
           name_under (fr !! "destination"%string))) /\
  (object_or_absent (top !! "response"%string) = false \/
   object_or_absent (r !! "flightroute"%string) = false \/
   object_or_absent (fr !! "airline"%string) = false \/
   object_or_absent (fr !! "origin"%string) = false \/
   object_or_absent (fr !! "destination"%string) = false ->
   parse_route (PDict top) = Raise AttributeError).
Proof.
  cbv zeta. unfold parse_route, obind, py_get.
  destruct (top !! "response"%string) as [[]|]; cbn;
    try (split; [discriminate | reflexivity]).
  - destruct (d !! "flightroute"%string) as [[]|]; cbn;
      try (split; [intros; discriminate | reflexivity]).
    + destruct (d0 !! "airline"%string) as [[]|]; cbn;
        try (split; [intros; discriminate | reflexivity]);
      destruct (d0 !! "origin"%string) as [[]|]; cbn;
        try (split; [intros; discriminate | reflexivity]);
      destruct (d0 !! "destination"%string) as [[]|]; cbn;
        try (split; [intros; discriminate | reflexivity]);
      (split; [reflexivity | intros [H|[H|[H|[H|H]]]]; discriminate]).
    + rewrite !lookup_empty. cbn.
      split; [reflexivity | intros [H|[H|[H|[H|H]]]]; discriminate].
  - rewrite !lookup_empty. cbn. rewrite !lookup_empty. cbn.
    split; [reflexivity | intros [H|[H|[H|[H|H]]]]; discriminate].
Qed.

Lemma parse_route_fields_witness :
  parse_route american_route = Ok (PStr "American Airlines", PStr "N/A", PStr "N/A") /\
  parse_route (PDict {[ "response"%string := PDict {[ "flightroute"%string :=
      PDict {[ "airline"%string := PNone;
               "origin"%string := PDict {[ "name"%string := PStr "Austin" ]} ]} ]} ]})
    = Raise AttributeError.
Proof.
  split.
  - exact (proj1 (parse_route_fields
             {[ "response"%string := PDict {[ "flightroute"%string :=
                  PDict {[ "airline"%string :=
                    PDict {[ "name"%string := PStr "American Airlines" ]} ]} ]} ]})
             eq_refl eq_refl eq_refl eq_refl eq_refl).
  - apply (proj2 (parse_route_fields
             {[ "response"%string := PDict {[ "flightroute"%string :=
                  PDict {[ "airline"%string := PNone;
                           "origin"%string := PDict {[ "name"%string := PStr "Austin" ]} ]} ]} ]})).
    right. right. left. reflexivity.
Defined.

(** X5. A lookup for a callsign that is not cached: the empty callsign is
    answered with the all-["N/A"] route, cached without a request; a
    well-formed reply for a non-empty callsign is parsed, cached under the
    callsign after one request, and returned.  In every case the lookup
    leaves all other cache entries as they were, and the route it returns
    is the one it stored under the callsign. *)
Theorem route_lookup_spec (net : nat -> request -> reply) (callsign : string) (s : state) :
  callsign_cache s !! callsign = None ->
  let rq := GetCallsign callsign in
  let s1 := (fetch_route_info net callsign s).2 in
  (callsign = ""%string -> fetch_route_info net callsign s = (Ok NA, cached "" NA s)) /\
  (callsign <> ""%string ->
     forall r j rt, net (length (sent s)) rq = Got r -> status_error r = false ->
       json_body r = Some j -> parse_route j = Ok rt ->
       fetch_route_info net callsign s = (Ok rt, cached callsign rt (requested rq s))) /\
  (forall k, k <> callsign -> callsign_cache s1 !! k = callsign_cache s !! k) /\
  (exists rt, callsign_cache s1 !! callsign = Some rt /\
              (fetch_route_info net callsign s).1 = Ok rt).
Proof.
  intros Hmiss. cbv zeta. split; [|split; [|split]].
  - intros ->. apply fetch_route_info_empty, Hmiss.
  - intros Hne r j rt Hrep Hst Hj Hp.
    rewrite (fetch_route_info_miss net _ _ Hne Hmiss). cbv zeta.
    unfold route_of_reply. rewrite Hrep, Hst, Hj, Hp. reflexivity.
  - intros k Hk. destruct (String.eqb_spec callsign "") as [->|Hne].
    + rewrite (fetch_route_info_empty net _ Hmiss). simpl.
      apply lookup_insert_ne. congruence.
    + rewrite (fetch_route_info_miss net _ _ Hne Hmiss). cbv zeta. simpl.
      apply lookup_insert_ne. congruence.
  - destruct (String.eqb_spec callsign "") as [->|Hne].
    + rewrite (fetch_route_info_empty net _ Hmiss). simpl.
      exists NA. split; [apply lookup_insert_eq | reflexivity].
    + rewrite (fetch_route_info_miss net _ _ Hne Hmiss). cbv zeta. simpl.
      eexists. split; [apply lookup_insert_eq | reflexivity].
Qed.

Lemma route_lookup_spec_witness :
  fetch_route_info (one_aircraft_net equator_aircraft) "" (init 0)
    = (Ok NA, cached "" NA (init 0)) /\
  fetch_route_info (one_aircraft_net equator_aircraft) "AAL1" (init 0)
    = (Ok (PStr "American Airlines", PStr "N/A", PStr "N/A"),
       cached "AAL1" (PStr "American Airlines", PStr "N/A", PStr "N/A")
         (requested (GetCallsign "AAL1") (init 0))).
Proof.
  split.
  - apply (proj1 (route_lookup_spec (one_aircraft_net equator_aircraft) "" (init 0) eq_refl)).
    reflexivity.
  - eapply (proj1 (proj2 (route_lookup_spec (one_aircraft_net equator_aircraft) "AAL1"
                            (init 0) eq_refl))).
    + discriminate.
    + reflexivity.
    + reflexivity.
    + reflexivity.
    + reflexivity.
Defined.

(** ** Logos and frames *)

Lemma logo_domains_nonempty name domain :
  AIRLINE_LOGO_DOMAINS !! name = Some domain -> String.eqb domain "" = false.
Proof.
  unfold AIRLINE_LOGO_DOMAINS. intros H.
  repeat (apply lookup_insert_Some in H; destruct H as [[_ <-]|[_ H]]; [reflexivity|]).
  rewrite lookup_empty in H. discriminate.
Qed.

Section Logo.

Variable net : nat -> request -> reply.

Lemma fetch_logo_known name domain s :
  AIRLINE_LOGO_DOMAINS !! name = Some domain ->
  fetch_logo net (PStr name) s =
    (Ok (if logo_arrives (net (length (sent s)) (GetLogo domain)) then Some domain else None),
     requested (GetLogo domain) s).
Proof.
  intros H. unfold fetch_logo. rewrite H, (logo_domains_nonempty _ _ H).
  unfold try_except, http_get, raise_for_status, mbind, M_bind, bind, raise, ret.
  destruct (net (length (sent s)) (GetLogo domain)) as [|resp]; [reflexivity|].
  cbn. destruct (status_error resp); [reflexivity|]. cbn.
  destruct (image_body resp); reflexivity.
Qed.

End Logo.

(** X6. [fetch_logo] for an airline that is not in [AIRLINE_LOGO_DOMAINS]
    returns no logo and sends nothing; for a listed airline it sends one
    request for the domain and returns the logo when the reply has a
    success status and decodes as an image, and no logo otherwise; for a
    value that is not a string it returns no logo, except that a list or
    an object raises [TypeError], being unhashable. *)
Theorem fetch_logo_spec (net : nat -> request -> reply) (airline : pyval) (s : state) :
  (forall name, airline = PStr name -> AIRLINE_LOGO_DOMAINS !! name = None ->
     fetch_logo net airline s = (Ok None, s)) /\
  (forall name domain, airline = PStr name -> AIRLINE_LOGO_DOMAINS !! name = Some domain ->
     fetch_logo net airline s =
       (Ok (if logo_arrives (net (length (sent s)) (GetLogo domain))
            then Some domain else None),
        requested (GetLogo domain) s)) /\
  ((forall name, airline <> PStr name) ->
     fetch_logo net airline s =
       (match airline with PList _ | PDict _ => Raise TypeError | _ => Ok None end, s)).
Proof.
  split; [|split].
  - intros name -> H. unfold fetch_logo. rewrite H. reflexivity.
  - intros name domain -> H. apply fetch_logo_known, H.
  - intros H. destruct airline; try reflexivity. exfalso. eapply H. reflexivity.
Qed.

Lemma fetch_logo_spec_witness :
  fetch_logo silent_net (PStr "Lufthansa") (init 0) = (Ok None, init 0) /\
  fetch_logo silent_net (PStr "Delta Air Lines") (init 0)
    = (Ok None, requested (GetLogo "delta.com") (init 0)) /\
  fetch_logo silent_net (PList []) (init 0) = (Raise TypeError, init 0).
Proof.
  split; [|split].
  - apply (proj1 (fetch_logo_spec silent_net (PStr "Lufthansa") (init 0)) "Lufthansa");
      reflexivity.
  - apply (proj1 (proj2 (fetch_logo_spec silent_net (PStr "Delta Air Lines") (init 0)))
             "Delta Air Lines" "delta.com"); reflexivity.
  - apply (proj2 (proj2 (fetch_logo_spec silent_net (PList []) (init 0)))).
    intros name. discriminate.
Defined.

Lemma draw_first (lm : libm) (net : nat -> request -> reply) (panel : display)
    (ac : pyval) (rest : list pyval) (loc_name : string) (home_coords : Q * Q)
    (f : fields) (s : state) :
  derive lm ac home_coords = Ok f ->
  (forall l, f_airline f <> PList l) -> (forall d, f_airline f <> PDict d) ->
  exists logo s1,
    fetch_logo net (f_airline f) s = (Ok logo, s1) /\
    draw lm net panel (ac :: rest) loc_name home_coords s
      = (Ok tt, displayed (frame_of panel f loc_name logo) s1) /\
    callsign_cache s1 = callsign_cache s /\ shown s1 = shown s /\
    (sent s1 = sent s \/ exists domain, sent s1 = sent s ++ [GetLogo domain]).
Proof.
  intros Hd Hl Hdict.
  assert (Hlogo : exists logo s1,
    fetch_logo net (f_airline f) s = (Ok logo, s1) /\
    callsign_cache s1 = callsign_cache s /\ shown s1 = shown s /\
    (sent s1 = sent s \/ exists domain, sent s1 = sent s ++ [GetLogo domain])).
  { destruct (f_airline f) as [| | | |name| |] eqn:E;
      try (exists None, s; auto; fail).
    - destruct (AIRLINE_LOGO_DOMAINS !! name) as [domain|] eqn:Hn.
      + rewrite (fetch_logo_known net _ _ s Hn). eexists _, _.
        split; [reflexivity|]. simpl. eauto.
      + exists None, s. unfold fetch_logo. rewrite Hn. auto.
    - exfalso. eapply Hl. reflexivity.
    - exfalso. eapply Hdict. reflexivity. }
  destruct Hlogo as (logo & s1 & Hf & Hc & Hs & Hr).
  exists logo, s1. split; [exact Hf|]. split; [|auto].
  unfold draw, lift, mbind, M_bind, bind. rewrite Hd, Hf. reflexivity.
Qed.





(** ** The enrichment loop *)

Section Enrich.

Variable net : nat -> request -> reply.

Lemma fetch_route_info_ok callsign s :
  exists r, (fetch_route_info net callsign s).1 = Ok r.
Proof.
  destruct (callsign_cache s !! callsign) as [r|] eqn:H.
  - rewrite (fetch_route_info_hit net _ _ _ H). eauto.
  - destruct (String.eqb_spec callsign "") as [->|Hne].
    + rewrite (fetch_route_info_empty net _ H). eauto.
    + rewrite (fetch_route_info_miss net _ _ Hne H). cbv zeta. eauto.
Qed.

Lemma callsign_of_usable ac :
  usable_record ac = true ->
  exists flight callsign,
    py_get ac "flight" PNone = Ok flight /\
    py_strip (py_or flight (PStr "")) = Ok callsign.
Proof.
  destruct ac; try discriminate. simpl. unfold py_or.
  destruct (d !! "flight"%string) as [v|]; simpl.
  - intros H. exists v. destruct v; simpl in *; try (rewrite (negb_true_iff _) in H; rewrite H);
      eauto.
    destruct (negb (String.eqb s "")); eauto.
  - eauto.
Qed.

Lemma callsign_of_unusable ac :
  usable_record ac = false ->
  obind (py_get ac "flight" PNone) (fun flight => py_strip (py_or flight (PStr "")))
    = Raise AttributeError.
Proof.
  destruct ac; try reflexivity. simpl. unfold py_or.
  destruct (d !! "flight"%string) as [v|]; simpl; [|discriminate].
  intros H. destruct v; try discriminate; simpl in *;
    apply negb_false_iff in H; rewrite H; reflexivity.
Qed.

Lemma enrich_step ac rest enriched s :
  enrich net (ac :: rest) enriched s =
    match obind (py_get ac "flight" PNone)
                (fun flight => py_strip (py_or flight (PStr ""))) with
    | Raise e => (Raise e, s)
    | Ok callsign =>
        match fetch_route_info net callsign s with
        | (Raise e, s1) => (Raise e, s1)
        | (Ok (airline, origin, dest), s1) =>
            if py_ne_str airline "N/A" then
              match py_update ac [("airline_name"%string, airline);
                                  ("origin_name"%string, origin);
                                  ("destination_name"%string, dest)] with
              | Ok ac' => enrich net rest (enriched ++ [ac']) s1
              | Raise e => (Raise e, s1)
              end
            else enrich net rest enriched s1
        end
    end.
Proof.
  cbn [enrich]. unfold lift, mbind, M_bind, bind, obind.
  destruct (py_get ac "flight" PNone) as [flight|]; [|reflexivity].
  destruct (py_strip _) as [callsign|]; [|reflexivity].
  destruct (fetch_route_info net callsign s) as [[[[airline origin] dest]|] s1]; [|reflexivity].
  destruct (py_ne_str airline "N/A"); [|reflexivity].
  destruct (py_update _ _); reflexivity.
Qed.

Lemma enrich_kept items : forall enriched s out s',
  enrich net items enriched s = (Ok out, s') ->
  exists kept new,
    out = enriched ++ new /\ kept `sublist_of` items /\ Forall2 enriches kept new.
Proof.
  induction items as [|ac rest IH]; intros enriched s out s' H.
  - injection H as <- <-. exists [], []. rewrite app_nil_r. repeat constructor.
  - rewrite enrich_step in H.
    destruct (obind _ _) as [callsign|]; [|discriminate].
    destruct (fetch_route_info net callsign s) as [[[[airline origin] dest]|] s1];
      [|discriminate].
    destruct (py_ne_str airline "N/A") eqn:Hne.
    + destruct ac; try discriminate. cbn in H.
      destruct (IH _ _ _ _ H) as (kept & new & -> & Hsub & Hall).
      eexists (PDict d :: kept), (_ :: new).
      split; [rewrite <- app_assoc; reflexivity|].
      split; [apply sublist_skip, Hsub|].
      constructor; [|exact Hall]. exists d, airline, origin, dest. auto.
    + destruct (IH _ _ _ _ H) as (kept & new & -> & Hsub & Hall).
      exists kept, new. split; [reflexivity|]. split; [apply sublist_cons, Hsub | exact Hall].
Qed.

Lemma enrich_outcome_ok items : forall enriched s,
  forallb usable_record items = true ->
  exists out, (enrich net items enriched s).1 = Ok out.
Proof.
  induction items as [|ac rest IH]; intros enriched s H; [simpl; eauto|].
  simpl in H. apply andb_true_iff in H. destruct H as [Hac Hrest].
  rewrite enrich_step.
  destruct (callsign_of_usable ac Hac) as (flight & callsign & -> & Hc). simpl. rewrite Hc.
  destruct (fetch_route_info_ok callsign s) as [[[airline origin] dest] Hr].
  destruct (fetch_route_info net callsign s) as [o s1]. simpl in Hr. subst o.
  destruct (py_ne_str airline "N/A"); [|apply IH, Hrest].
  destruct ac; try discriminate. cbn. apply IH, Hrest.
Qed.

Lemma enrich_outcome_raise items : forall enriched s,
  forallb usable_record items = false ->
  (enrich net items enriched s).1 = Raise AttributeError.
Proof.
  induction items as [|ac rest IH]; intros enriched s H; [discriminate|].
  simpl in H. rewrite enrich_step.
  destruct (usable_record ac) eqn:Hac.
  - simpl in H.
    destruct (callsign_of_usable ac Hac) as (flight & callsign & -> & Hc). simpl. rewrite Hc.
    destruct (fetch_route_info_ok callsign s) as [[[airline origin] dest] Hr].
    destruct (fetch_route_info net callsign s) as [o s1]. simpl in Hr. subst o.
    destruct (py_ne_str airline "N/A"); [|apply IH, H].
    destruct ac; try discriminate. cbn. apply IH, H.
  - rewrite (callsign_of_unusable ac Hac). reflexivity.
Qed.

End Enrich.

(** X9. When the [for] loop of [run] completes, the enriched list is what
    it started with followed by the updated copies of a sublist of the
    aircraft, in upstream order: each kept record is an object that
    received the three route names, with an airline other than ["N/A"],
    and no record is kept twice. *)
Theorem enrich_keeps_resolved_in_order (net : nat -> request -> reply)
    (items enriched out : list pyval) (s s' : state) :
  enrich net items enriched s = (Ok out, s') ->
  exists kept new,
    out = enriched ++ new /\ kept `sublist_of` items /\ Forall2 enriches kept new /\
    (length new <= length items)%nat.
Proof.
  intros H. destruct (enrich_kept net items enriched s out s' H) as (kept & new & E & Hs & Hf).
  exists kept, new. repeat split; try assumption.
  rewrite <- (Forall2_length _ _ _ Hf). apply sublist_length, Hs.
Qed.

Lemma enrich_keeps_resolved_in_order_witness :
  exists kept new,
    [PDict (<["destination_name"%string := PStr "N/A"]>
           (<["origin_name"%string := PStr "N/A"]>
           (<["airline_name"%string := PStr "American Airlines"]>
              {[ "flight"%string := PStr "AAL1" ]})))]
      = [] ++ new /\
    kept `sublist_of` [bare_aircraft ""; bare_aircraft "AAL1"] /\
    Forall2 enriches kept new /\ (length new <= 2)%nat.
Proof.
  eapply (enrich_keeps_resolved_in_order (one_aircraft_net equator_aircraft)
            [bare_aircraft ""; bare_aircraft "AAL1"] [] _ (init 0)).
  vm_compute. reflexivity.
Defined.

(** X10. The [for] loop of [run] completes when every aircraft record is
    an object whose ["flight"] is absent, falsy or a string; when some
    record is not an object, or has a truthy ["flight"] that is not a
    string, the loop raises [AttributeError]. *)
Theorem enrich_raises_iff_unusable (net : nat -> request -> reply)
    (items enriched : list pyval) (s : state) :
  (forallb usable_record items = true ->
     exists out, (enrich net items enriched s).1 = Ok out) /\
  (forallb usable_record items = false ->
     (enrich net items enriched s).1 = Raise AttributeError).
Proof.
  split; [apply enrich_outcome_ok | apply enrich_outcome_raise].
Qed.

Lemma enrich_raises_iff_unusable_witness :
  (exists out, (enrich silent_net [bare_aircraft "AAL1"; PDict ∅] [] (init 0)).1 = Ok out) /\
  (enrich silent_net [bare_aircraft "AAL1"; PInt 7] [] (init 0)).1 = Raise AttributeError.
Proof.
  split.
  - apply (proj1 (enrich_raises_iff_unusable silent_net
                    [bare_aircraft "AAL1"; PDict ∅] [] (init 0))).
    reflexivity.
  - apply (proj2 (enrich_raises_iff_unusable silent_net
                    [bare_aircraft "AAL1"; PInt 7] [] (init 0))).
    reflexivity.
Defined.

(** ** How much the loop sends and shows *)

Section Adds.

Context {A : Type} (field : state -> list A).

Lemma grows_refl s : grows field 0 s s.
Proof. exists []. rewrite app_nil_r. auto. Qed.

Lemma grows_trans a b s1 s2 s3 :
  grows field a s1 s2 -> grows field b s2 s3 -> grows field (a + b) s1 s3.
Proof.
  intros (l1 & E1 & H1) (l2 & E2 & H2). exists (l1 ++ l2).
  rewrite E2, E1, app_assoc, length_app. split; [reflexivity | lia].
Qed.

Lemma grows_weaken a b s s' : (a <= b)%nat -> grows field a s s' -> grows field b s s'.
Proof. intros Hab (l & E & H). exists l. split; [exact E | lia]. Qed.

Lemma adds_ret {X} (x : X) : adds field 0 (mret x : M X).
Proof. intros s. apply grows_refl. Qed.

Lemma adds_raise {X} e : adds field 0 (raise e : M X).
Proof. intros s. apply grows_refl. Qed.

Lemma adds_lift {X} (x : outcome X) : adds field 0 (lift x).
Proof. intros s. apply grows_refl. Qed.

Lemma adds_bind {X Y} a b (m : M X) (f : X -> M Y) :
  adds field a m -> (forall x, adds field b (f x)) -> adds field (a + b) (m ≫= f).
Proof.
  intros Hm Hf s. unfold mbind, M_bind, bind. specialize (Hm s).
  destruct (m s) as [[x|e] s1]; simpl in *.
  - eapply grows_trans; [exact Hm | apply Hf].
  - eapply grows_weaken; [|exact Hm]. lia.
Qed.

Lemma adds_try {X} a b (m : M X) (h : exn -> M X) :
  adds field a m -> (forall e, adds field b (h e)) -> adds field (a + b) (try_except m h).
Proof.
  intros Hm Hh s. unfold try_except. specialize (Hm s).
  destruct (m s) as [[x|e] s1]; simpl in *.
  - eapply grows_weaken; [|exact Hm]. lia.
  - eapply grows_trans; [exact Hm | apply Hh].
Qed.

Lemma adds_weaken {X} a b (m : M X) : (a <= b)%nat -> adds field a m -> adds field b m.
Proof. intros Hab H s. eapply grows_weaken; [exact Hab | apply H]. Qed.

End Adds.

Ltac adds_step :=
  first
    [ apply adds_ret | apply adds_raise | apply adds_lift
    | eapply adds_bind; [|intros ?]
    | eapply adds_try; [|intros ?] ].

Section Budget.

Variable lm : libm.
Variable net : nat -> request -> reply.
Variable panel : display.

Lemma sent_http_get rq : adds sent 1 (http_get net rq).
Proof.
  intros s. exists [rq]. unfold http_get. destruct (net _ _); simpl; auto.
Qed.

Lemma shown_http_get rq : adds shown 0 (http_get net rq).
Proof.
  intros s. exists []. unfold http_get. rewrite app_nil_r. destruct (net _ _); simpl; auto.
Qed.

Lemma sent_show f : adds sent 0 (show f).
Proof. intros s. exists []. rewrite app_nil_r. simpl. auto. Qed.

Lemma shown_show f : adds shown 1 (show f).
Proof. intros s. exists [f]. simpl. auto. Qed.

Lemma adds_raise_for_status {A} (field : state -> list A) r :
  adds field 0 (raise_for_status r).
Proof. unfold raise_for_status. destruct (status_error r); adds_step. Qed.

Lemma sent_fetch_route_info callsign : adds sent 1 (fetch_route_info net callsign).
Proof.
  intros s. destruct (callsign_cache s !! callsign) as [r|] eqn:H.
  - rewrite (fetch_route_info_hit net _ _ _ H). exists []. rewrite app_nil_r. simpl. auto.
  - destruct (String.eqb_spec callsign "") as [->|Hne].
    + rewrite (fetch_route_info_empty net _ H). exists []. rewrite app_nil_r. simpl. auto.
    + rewrite (fetch_route_info_miss net _ _ Hne H). cbv zeta.
      exists [GetCallsign callsign]. simpl. auto.
Qed.

Lemma shown_fetch_route_info callsign : adds shown 0 (fetch_route_info net callsign).
Proof.
  intros s. exists []. rewrite app_nil_r. split; [|simpl; lia].
  destruct (callsign_cache s !! callsign) as [r|] eqn:H.
  - rewrite (fetch_route_info_hit net _ _ _ H). reflexivity.
  - destruct (String.eqb_spec callsign "") as [->|Hne].
    + rewrite (fetch_route_info_empty net _ H). reflexivity.
    + rewrite (fetch_route_info_miss net _ _ Hne H). reflexivity.
Qed.

Lemma sent_fetch_logo airline : adds sent 1 (fetch_logo net airline).
Proof.
  unfold fetch_logo. eapply adds_weaken with (a := 1%nat); [lia|].
  destruct airline; try (eapply adds_weaken; [|adds_step]; lia).
  destruct (AIRLINE_LOGO_DOMAINS !! s); [|eapply adds_weaken; [|adds_step]; lia].
  destruct (String.eqb _ _); [eapply adds_weaken; [|adds_step]; lia|].
  change 1%nat with (1 + 0 + 0)%nat.
  eapply adds_try; [|intros ?; adds_step].
  eapply adds_bind; [apply sent_http_get|]. intros resp.
  change 0%nat with (0 + 0)%nat.
  eapply adds_bind; [apply adds_raise_for_status|]. intros _.
  destruct (image_body resp); adds_step.
Qed.

Lemma shown_fetch_logo airline : adds shown 0 (fetch_logo net airline).
Proof.
  unfold fetch_logo.
  destruct airline; try adds_step.
  destruct (AIRLINE_LOGO_DOMAINS !! s); [|adds_step].
  destruct (String.eqb _ _); [adds_step|].
  change 0%nat with (0 + 0 + 0)%nat.
  eapply adds_try; [|intros ?; adds_step].
  eapply adds_bind; [apply shown_http_get|]. intros resp.
  change 0%nat with (0 + 0)%nat.
  eapply adds_bind; [apply adds_raise_for_status|]. intros _.
  destruct (image_body resp); adds_step.
Qed.

Lemma sent_draw aircraft loc_name home_coords :
  adds sent 1 (draw lm net panel aircraft loc_name home_coords).
Proof.
  unfold draw. destruct aircraft; [eapply adds_weaken; [|adds_step]; lia|].
  change 1%nat with (0 + (1 + 0))%nat.
  eapply adds_bind; [apply adds_lift|]. intros f.
  eapply adds_bind; [apply sent_fetch_logo|]. intros logo. apply sent_show.
Qed.

Lemma shown_draw aircraft loc_name home_coords :
  adds shown 1 (draw lm net panel aircraft loc_name home_coords).
Proof.
  unfold draw. destruct aircraft; [eapply adds_weaken; [|adds_step]; lia|].
  change 1%nat with (0 + (0 + 1))%nat.
  eapply adds_bind; [apply adds_lift|]. intros f.
  eapply adds_bind; [apply shown_fetch_logo|]. intros logo. apply shown_show.
Qed.

Lemma sent_enrich items : forall enriched, adds sent (length items) (enrich net items enriched).
Proof.
  induction items as [|ac rest IH]; intros enriched s.
  - apply grows_refl.
  - rewrite enrich_step.
    destruct (obind _ _) as [callsign|]; [|eapply grows_weaken; [|apply grows_refl]; lia].
    pose proof (sent_fetch_route_info callsign s) as Hr.
    destruct (fetch_route_info net callsign s) as [[[[airline origin] dest]|] s1]; simpl in Hr.
    2: { eapply grows_weaken; [|exact Hr]. simpl. lia. }
    change (length (ac :: rest)) with (1 + length rest)%nat.
    destruct (py_ne_str airline "N/A").
    + destruct (py_update _ _).
      * eapply grows_trans; [exact Hr | apply IH].
      * eapply grows_weaken; [|exact Hr]. lia.
    + eapply grows_trans; [exact Hr | apply IH].
Qed.

Lemma shown_enrich items : forall enriched, adds shown 0 (enrich net items enriched).
Proof.
  induction items as [|ac rest IH]; intros enriched s.
  - apply grows_refl.
  - rewrite enrich_step.
    destruct (obind _ _) as [callsign|]; [|apply grows_refl].
    pose proof (shown_fetch_route_info callsign s) as Hr.
    destruct (fetch_route_info net callsign s) as [[[[airline origin] dest]|] s1]; simpl in Hr.
    2: exact Hr.
    change 0%nat with (0 + 0)%nat.
    destruct (py_ne_str airline "N/A").
    + destruct (py_update _ _).
      * eapply grows_trans; [exact Hr | apply IH].
      * exact Hr.
    + eapply grows_trans; [exact Hr | apply IH].
Qed.

Lemma chars_length t : length (chars t) = String.length t.
Proof. induction t; simpl; congruence. Qed.

Lemma substring_length_le n : forall t, (String.length (substring 0 n t) <= n)%nat.
Proof.
  induction n as [|n IH]; intros t.
  - destruct t; simpl; lia.
  - destruct t; simpl; [lia|]. specialize (IH t). lia.
Qed.

Lemma items_bounded rep items :
  py_iter (aircraft_of_reply rep) = Ok items -> (length items <= MAX_AIRCRAFT)%nat.
Proof.
  assert (E : py_iter (PList []) = Ok items -> (length items <= MAX_AIRCRAFT)%nat).
  { intros H. injection H as <-. simpl. lia. }
  unfold aircraft_of_reply. destruct rep as [|r]; [exact E|].
  destruct (status_error r); [exact E|].
  destruct (json_body r) as [[]|]; try exact E.
  destruct (d !! "ac"%string) as [[]|]; try exact E.
  - intros H. injection H as <-. rewrite chars_length. apply substring_length_le.
  - intros H. injection H as <-. rewrite length_take. lia.
Qed.

Lemma rotate_if_due_logs {A} (field : state -> list A) now :
  (forall i t s, field (set_rotation i t s).2 = field s) ->
  adds field 0 (rotate_if_due now).
Proof.
  intros Hf s. unfold rotate_if_due. exists []. rewrite app_nil_r.
  destruct (Qle_bool _ _); [rewrite Hf|]; auto.
Qed.

Lemma sent_gather now : adds sent (1 + MAX_AIRCRAFT) (gather net now).
Proof.
  unfold gather.
  change (1 + MAX_AIRCRAFT)%nat with (0 + (0 + (1 + MAX_AIRCRAFT)))%nat.
  eapply adds_bind; [apply rotate_if_due_logs; reflexivity|]. intros _.
  eapply adds_bind.
  { intros s. unfold current_location. destruct (LOCATIONS !! idx s); apply grows_refl. }
  intros loc s. unfold mbind, M_bind, bind. rewrite fetch_aircraft_eq. cbv zeta.
  set (rq := GetPoint (loc_lat loc) (loc_lon loc) (loc_radius loc)).
  set (rep := net (length (sent s)) rq).
  assert (H1 : grows sent 1 s (requested rq s)) by (exists [rq]; simpl; auto).
  unfold lift. destruct (py_iter (aircraft_of_reply rep)) as [items|] eqn:Hi; simpl.
  2: { eapply grows_weaken; [|exact H1]. lia. }
  pose proof (items_bounded rep items Hi) as Hlen.
  pose proof (sent_enrich items [] (requested rq s)) as He.
  destruct (enrich net items [] (requested rq s)) as [[out|] s1]; simpl in *;
    (eapply grows_weaken; [|eapply grows_trans; [exact H1 | exact He]]; lia).
Qed.

Lemma shown_gather now : adds shown 0 (gather net now).
Proof.
  unfold gather.
  change 0%nat with (0 + (0 + (0 + (0 + (0 + 0)))))%nat.
  eapply adds_bind; [apply rotate_if_due_logs; reflexivity|]. intros _.
  eapply adds_bind.
  { intros s. unfold current_location. destruct (LOCATIONS !! idx s); apply grows_refl. }
  intros loc.
  eapply adds_bind.
  { intros s. rewrite fetch_aircraft_eq. exists []. rewrite app_nil_r. simpl. auto. }
  intros aircraft. eapply adds_bind; [apply adds_lift|]. intros items.
  eapply adds_bind; [apply shown_enrich|]. intros enriched. apply adds_ret.
Qed.

Lemma sent_run_body now : adds sent (2 + MAX_AIRCRAFT) (run_body lm net panel now).
Proof.
  unfold run_body.
  change (2 + MAX_AIRCRAFT)%nat with ((1 + MAX_AIRCRAFT) + 1)%nat.
  eapply adds_bind; [apply sent_gather|].
  intros [loc enriched]. simpl. destruct enriched.
  - intros s. exists []. rewrite app_nil_r. simpl. auto.
  - apply sent_draw.
Qed.

Lemma shown_run_body now : adds shown 1 (run_body lm net panel now).
Proof.
  unfold run_body. change 1%nat with (0 + 1)%nat.
  eapply adds_bind; [apply shown_gather|].
  intros [loc enriched]. simpl. destruct enriched.
  - intros s. exists []. rewrite app_nil_r. simpl. auto.
  - apply shown_draw.
Qed.

Lemma logs_run {A} (field : state -> list A) k clock :
  (forall now, adds field k (run_body lm net panel now)) ->
  adds field (length clock * k) (run lm net panel clock).
Proof.
  intros Hk. induction clock as [|now later IH]; simpl.
  - apply adds_ret.
  - rewrite Nat.add_comm. rewrite Nat.add_comm.
    eapply adds_bind; [apply Hk | intros _; exact IH].
Qed.

End Budget.

(** X11. Load on the services and on the panel: over any number of loop
    iterations, the requests sent are appended to the log, at most 22 per
    iteration (one position query, at most 20 route lookups, at most one
    logo), and at most one frame per iteration is handed to the panel. *)
Theorem network_and_panel_budget (lm : libm) (net : nat -> request -> reply)
    (panel : display) (clock : list Q) (s : state) :
  let s' := (run lm net panel clock s).2 in
  (exists requests, sent s' = sent s ++ requests /\
                    (length requests <= length clock * 22)%nat) /\
  (exists frames, shown s' = shown s ++ frames /\
                  (length frames <= length clock)%nat).
Proof.
  cbv zeta. split.
  - apply (logs_run lm net panel sent (2 + MAX_AIRCRAFT) clock).
    intros now. apply sent_run_body.
  - destruct (logs_run lm net panel shown 1 clock
                (fun now => shown_run_body lm net panel now) s) as (l & E & H).
    exists l. split; [exact E | lia].
Qed.

(** ** Invariants of the loop *)

Section Range.

Variable lm : libm.
Variable net : nat -> request -> reply.
Variable panel : display.

Lemma idx_run_body now s :
  (idx s < length LOCATIONS)%nat ->
  (idx (run_body lm net panel now s).2 < length LOCATIONS)%nat.
Proof.
  intros H.
  assert (H0 : (idx (rotate_if_due now s).2 < length LOCATIONS)%nat).
  { unfold rotate_if_due. destruct (Qle_bool _ _); [apply next_idx_spec | exact H]. }
  pose proof (gather_after_rotation net now s) as (Hg & _).
  unfold run_body, mbind, M_bind, bind.
  destruct (gather net now s) as [[[loc enriched]|e] s1]; simpl in *.
  - destruct enriched as [|ac rest].
    + apply next_idx_spec.
    + pose proof (quiet_draw lm net panel (ac :: rest) (loc_name loc) HOME_COORDS s1)
        as (Hd & _).
      rewrite Hd, Hg. exact H0.
  - rewrite Hg. exact H0.
Qed.

Lemma idx_run clock : forall s,
  (idx s < length LOCATIONS)%nat ->
  (idx (run lm net panel clock s).2 < length LOCATIONS)%nat.
Proof.
  induction clock as [|now later IH]; intros s H; [exact H|].
  simpl. unfold mbind, M_bind, bind.
  pose proof (idx_run_body now s H) as H1.
  destruct (run_body lm net panel now s) as [[[]|e] s1]; simpl in *; [apply IH, H1 | exact H1].
Qed.

End Range.

(** X12. Started with an index inside [LOCATIONS], the loop keeps it
    inside: after any number of iterations, however they end,
    [LOCATIONS[self.idx]] is defined. *)
Theorem area_index_stays_in_range (lm : libm) (net : nat -> request -> reply)
    (panel : display) (clock : list Q) (s : state) :
  (idx s < length LOCATIONS)%nat ->
  let s' := (run lm net panel clock s).2 in
  (idx s' < length LOCATIONS)%nat /\
  exists loc, current_location s' = (Ok loc, s').
Proof.
  intros H. cbv zeta.
  pose proof (idx_run lm net panel clock s H) as H1. split; [exact H1|].
  unfold current_location.
  destruct (lookup_lt_is_Some_2 _ _ H1) as [loc Hloc]. rewrite Hloc. eauto.
Qed.

Lemma area_index_stays_in_range_witness :
  let s' := (run series_libm (one_aircraft_net equator_aircraft) inky_panel
               [10; 400; 410]%Q (init 0)).2 in
  (idx s' < length LOCATIONS)%nat /\
  exists loc, current_location s' = (Ok loc, s').
Proof.
  apply (area_index_stays_in_range series_libm (one_aircraft_net equator_aircraft)
           inky_panel [10; 400; 410]%Q (init 0)).
  simpl. lia.
Defined.

(** X13. The loop never evicts nor overwrites a cache entry: a route
    stored under a callsign is still stored under it, unchanged, after any
    number of iterations. *)
Theorem cache_entries_are_permanent (lm : libm) (net : nat -> request -> reply)
    (panel : display) (clock : list Q) (s : state) (callsign : string) (r : route) :
  callsign_cache s !! callsign = Some r ->
  callsign_cache (run lm net panel clock s).2 !! callsign = Some r.
Proof. intros H. apply (cache_kept_run lm net panel clock s _ _ H). Qed.

Lemma cache_entries_are_permanent_witness :
  callsign_cache
    (run series_libm (one_aircraft_net equator_aircraft) inky_panel [10; 400]%Q
       (cached "AAL1" NA (init 0))).2 !! "AAL1"%string = Some NA.
Proof.
  apply (cache_entries_are_permanent series_libm (one_aircraft_net equator_aircraft)
           inky_panel [10; 400]%Q (cached "AAL1" NA (init 0)) "AAL1" NA).
  reflexivity.
Defined.

(** ** Replies the loop survives *)

Lemma parse_altitude_total v : exists z, parse_altitude v = Ok z.
Proof.
  unfold parse_altitude, py_int. destruct v; eauto.
  destruct (int_of_str s); eauto.
Qed.

Lemma py_iter_total rep : exists items, py_iter (aircraft_of_reply rep) = Ok items.
Proof.
  unfold aircraft_of_reply. destruct rep as [|r]; [simpl; eauto|].
  destruct (status_error r); [simpl; eauto|].
  destruct (json_body r) as [[]|]; simpl; eauto.
  destruct (d !! "ac"%string) as [[]|]; simpl; eauto.
Qed.

Lemma drawable_usable ac : drawable ac = true -> usable_record ac = true.
Proof.
  destruct ac; try discriminate. simpl.
  destruct (d !! "flight"%string) as [[]|]; simpl; try discriminate; reflexivity.
Qed.

Section CrashFree.

Variable lm : libm.
Variable net : nat -> request -> reply.
Variable panel : display.
Hypothesis tame : tame_net net.

Lemma derive_ready ac home_coords :
  ready ac = true ->
  exists f, derive lm ac home_coords = Ok f /\ plain_name (f_airline f) = true.
Proof.
  unfold ready, drawable. destruct ac; try discriminate.
  intros H. apply andb_true_iff in H. destruct H as [H Hp].
  apply andb_true_iff in H. destruct H as [H Hc].
  apply andb_true_iff in H. destruct H as [Hf Hs].
  unfold derive, py_get, obind.
  assert (exists callsign, py_strip (default (PStr "N/A") (d !! "flight"%string)) = Ok callsign)
    as [callsign ->].
  { destruct (d !! "flight"%string) as [[]|]; try discriminate; simpl; eauto. }
  destruct (parse_altitude_total (default PNone (d !! "alt_baro"%string))) as [alt ->].
  unfold speed_readable in Hs.
  destruct (py_int _) as [speed|]; [|discriminate].
  assert (exists dist, distance_from lm home_coords (default PNone (d !! "lat"%string))
                         (default PNone (d !! "lon"%string)) = Ok dist) as [dist ->].
  { unfold coords_usable in Hc. unfold distance_from.
    destruct (py_truthy _ && py_truthy _); [|eauto].
    simpl in Hc. apply andb_true_iff in Hc. destruct Hc as [Ha Hb].
    destruct (default PNone (d !! "lat"%string)); try discriminate;
      destruct (default PNone (d !! "lon"%string)); try discriminate; simpl; eauto. }
  eexists. split; [reflexivity | exact Hp].
Qed.

Lemma draw_ready ac rest loc_name home_coords s :
  ready ac = true ->
  exists s1,
    draw lm net panel (ac :: rest) loc_name home_coords s = (Ok tt, s1) /\
    callsign_cache s1 = callsign_cache s.
Proof.
  intros H. destruct (derive_ready ac home_coords H) as (f & Hd & Hp).
  destruct (draw_first lm net panel ac rest loc_name home_coords f s Hd)
    as (logo & s1 & _ & Hdraw & Hc & _).
  - intros l E. rewrite E in Hp. discriminate.
  - intros d E. rewrite E in Hp. discriminate.
  - eexists. split; [exact Hdraw | exact Hc].
Qed.

Lemma fetch_route_info_tame callsign s :
  tame_cache s ->
  exists r s1,
    fetch_route_info net callsign s = (Ok r, s1) /\
    plain_name r.1.1 = true /\ tame_cache s1.
Proof.
  intros Hs. destruct (callsign_cache s !! callsign) as [r|] eqn:H.
  - rewrite (fetch_route_info_hit net _ _ _ H). exists r, s. eauto.
  - assert (Hins : forall r s0, callsign_cache s0 = callsign_cache s ->
                     plain_name r.1.1 = true -> tame_cache (cached callsign r s0)).
    { intros r s0 E Hr k r' Hk. simpl in Hk. rewrite E in Hk.
      apply lookup_insert_Some in Hk. destruct Hk as [[_ <-]|[_ Hk]]; [exact Hr | eauto]. }
    destruct (String.eqb_spec callsign "") as [->|Hne].
    + rewrite (fetch_route_info_empty net _ H). eexists _, _.
      split; [reflexivity|]. split; [reflexivity | apply Hins; reflexivity].
    + rewrite (fetch_route_info_miss net _ _ Hne H). cbv zeta. eexists _, _.
      split; [reflexivity|].
      pose proof (proj2 tame (length (sent s)) callsign) as Hr.
      split; [exact Hr | apply Hins; [reflexivity | exact Hr]].
Qed.

Lemma ready_update d airline origin dest :
  drawable (PDict d) = true -> plain_name airline = true ->
  ready (PDict (<["destination_name"%string := dest]>
               (<["origin_name"%string := origin]>
               (<["airline_name"%string := airline]> d)))) = true.
Proof.
  intros Hd Hp. unfold ready, drawable in *.
  rewrite !(lookup_insert_ne _ "destination_name"%string) by discriminate.
  rewrite !(lookup_insert_ne _ "origin_name"%string) by discriminate.
  rewrite !(lookup_insert_ne _ "airline_name"%string "flight"%string) by discriminate.
  rewrite !(lookup_insert_ne _ "airline_name"%string "gs"%string) by discriminate.
  rewrite !(lookup_insert_ne _ "airline_name"%string "lat"%string) by discriminate.
  rewrite !(lookup_insert_ne _ "airline_name"%string "lon"%string) by discriminate.
  rewrite Hd. rewrite lookup_insert_eq. exact Hp.
Qed.

Lemma enrich_tame items : forall enriched s,
  forallb drawable items = true -> forallb ready enriched = true -> tame_cache s ->
  exists out s1,
    enrich net items enriched s = (Ok out, s1) /\
    forallb ready out = true /\ tame_cache s1.
Proof.
  induction items as [|ac rest IH]; intros enriched s Hi He Hs.
  - exists enriched, s. auto.
  - simpl in Hi. apply andb_true_iff in Hi. destruct Hi as [Hac Hrest].
    rewrite enrich_step.
    destruct (callsign_of_usable ac (drawable_usable ac Hac)) as (flight & callsign & -> & Hc).
    simpl. rewrite Hc.
    destruct (fetch_route_info_tame callsign s Hs)
      as ([[airline origin] dest] & s1 & -> & Hp & Hs1).
    simpl in Hp.
    destruct (py_ne_str airline "N/A"); [|apply IH; assumption].
    destruct ac; try discriminate. cbn.
    apply IH; [exact Hrest | | exact Hs1].
    rewrite forallb_app, He. simpl. rewrite (ready_update d airline origin dest Hac Hp).
    reflexivity.
Qed.

Lemma run_body_tame now s :
  (idx s < length LOCATIONS)%nat -> tame_cache s ->
  exists s1, run_body lm net panel now s = (Ok tt, s1) /\ tame_cache s1.
Proof.
  intros Hidx Hs.
  unfold run_body, gather, mbind, M_bind, bind.
  assert (exists s0, rotate_if_due now s = (Ok tt, s0) /\
                     (idx s0 < length LOCATIONS)%nat /\ tame_cache s0)
    as (s0 & -> & Hidx0 & Hs0).
  { unfold rotate_if_due. destruct (Qle_bool _ _).
    - eexists. split; [reflexivity|]. split; [apply next_idx_spec | exact Hs].
    - exists s. auto. }
  unfold current_location.
  destruct (lookup_lt_is_Some_2 _ _ Hidx0) as [loc ->].
  rewrite fetch_aircraft_eq. cbv zeta.
  set (rq := GetPoint (loc_lat loc) (loc_lon loc) (loc_radius loc)).
  destruct (py_iter_total (net (length (sent s0)) rq)) as [items Hitems].
  unfold lift. rewrite Hitems.
  pose proof (proj1 tame _ _ _ _ _ Hitems) as Hdraw.
  destruct (enrich_tame items [] (requested rq s0) Hdraw eq_refl Hs0)
    as (out & s1 & -> & Hout & Hs1).
  unfold ret. cbn.
  destruct out as [|ac rest].
  - eexists. split; [reflexivity | exact Hs1].
  - simpl in Hout. apply andb_true_iff in Hout. destruct Hout as [Hac _].
    destruct (draw_ready ac rest (loc_name loc) HOME_COORDS s1 Hac) as (s2 & -> & Hc).
    exists s2. split; [reflexivity|]. intros k r Hk. rewrite Hc in Hk. eauto.
Qed.

Lemma run_tame clock : forall s,
  (idx s < length LOCATIONS)%nat -> tame_cache s ->
  (run lm net panel clock s).1 = Ok tt.
Proof.
  induction clock as [|now later IH]; intros s Hidx Hs; [reflexivity|].
  simpl. unfold mbind, M_bind, bind.
  pose proof (idx_run_body lm net panel now s Hidx) as Hidx1.
  destruct (run_body_tame now s Hidx Hs) as (s1 & E & Hs1).
  rewrite E in *. simpl in Hidx1. apply IH; assumption.
Qed.

End CrashFree.



(** ** What goes out on the wire *)

#[export] Instance tidy_preorder : PreOrder tidy.
Proof.
  split.
  - intros s. split; [auto|]. exists []. rewrite app_nil_r. auto.
  - intros a b c [F1 (l1 & E1 & P1)] [F2 (l2 & E2 & P2)]. split; [auto|].
    exists (l1 ++ l2). rewrite E2, E1, app_assoc. split; [reflexivity|].
    apply Forall_app. auto.
Qed.

Lemma lookups_requested c rq s :
  lookups c (requested rq s) = (lookups c s + if is_lookup_of c rq then 1 else 0)%nat.
Proof.
  unfold lookups. simpl. rewrite List.filter_app, length_app. simpl.
  destruct (is_lookup_of c rq); reflexivity.
Qed.

Lemma frugal_kept s s' :
  cache_kept s s' -> (forall c, lookups c s' = lookups c s) -> frugal s -> frugal s'.
Proof.
  intros Hc Hl Hf c. rewrite Hl. destruct (Hf c) as [Ha Hb]. split; [exact Ha|].
  intros Hn. apply Hb. destruct (callsign_cache s !! c) as [r|] eqn:E; [|reflexivity].
  rewrite (Hc _ _ E) in Hn. discriminate.
Qed.

Lemma tidy_same_sent s s' : sent s' = sent s -> cache_kept s s' -> tidy s s'.
Proof.
  intros Hs Hc. split.
  - apply frugal_kept; [exact Hc|]. intros c. unfold lookups. rewrite Hs. reflexivity.
  - exists []. rewrite app_nil_r. auto.
Qed.

Lemma tidy_requested rq s :
  configured rq -> (forall c, is_lookup_of c rq = false) -> tidy s (requested rq s).
Proof.
  intros Hq Hn. split.
  - apply frugal_kept; [intros k r H; exact H|].
    intros c. rewrite lookups_requested, Hn. lia.
  - exists [rq]. auto.
Qed.

Lemma tidy_looked_up callsign r s :
  callsign <> ""%string -> callsign_cache s !! callsign = None ->
  tidy s (cached callsign r (requested (GetCallsign callsign) s)).
Proof.
  intros Hne Hmiss. split.
  - intros Hf c. destruct (Hf c) as [Ha Hb].
    change (lookups c (cached callsign r (requested (GetCallsign callsign) s)))
      with (lookups c (requested (GetCallsign callsign) s)).
    rewrite lookups_requested. simpl.
    destruct (String.eqb_spec callsign c) as [<-|Hc].
    + split; [rewrite (Hb Hmiss); lia|]. rewrite lookup_insert_eq. discriminate.
    + rewrite Nat.add_0_r. split; [exact Ha|].
      rewrite lookup_insert_ne by exact Hc. exact Hb.
  - exists [GetCallsign callsign]. split; [reflexivity|]. constructor; [exact Hne | constructor].
Qed.

Section Tidy.

Variable lm : libm.
Variable net : nat -> request -> reply.
Variable panel : display.

Lemma tidy_show f : preserves tidy (show f).
Proof. intros s. apply tidy_same_sent; [reflexivity | intros k r H; exact H]. Qed.

Lemma tidy_set_rotation i t : preserves tidy (set_rotation i t).
Proof. intros s. apply tidy_same_sent; [reflexivity | intros k r H; exact H]. Qed.

Lemma tidy_rotate_if_due now : preserves tidy (rotate_if_due now).
Proof.
  intros s. unfold rotate_if_due.
  destruct (Qle_bool _ _); [apply tidy_set_rotation | reflexivity].
Qed.

Lemma tidy_skip_ahead now : preserves tidy (skip_ahead now).
Proof. intros s. apply tidy_set_rotation. Qed.

Lemma tidy_fetch_route_info callsign : preserves tidy (fetch_route_info net callsign).
Proof.
  intros s. destruct (callsign_cache s !! callsign) as [r|] eqn:H.
  - rewrite (fetch_route_info_hit _ _ _ _ H). reflexivity.
  - destruct (String.eqb_spec callsign "") as [->|Hne].
    + rewrite (fetch_route_info_empty _ _ H).
      apply tidy_same_sent; [reflexivity|]. apply quiet_cache_kept, quiet_cached, H.
    + rewrite (fetch_route_info_miss _ _ _ Hne H). cbv zeta. simpl.
      apply tidy_looked_up; assumption.
Qed.

Lemma tidy_fetch_aircraft loc :
  loc ∈ LOCATIONS ->
  preserves tidy (fetch_aircraft net (loc_lat loc) (loc_lon loc) (loc_radius loc)).
Proof.
  intros Hloc s. rewrite fetch_aircraft_eq. cbv zeta. simpl.
  apply tidy_requested; [|reflexivity]. exists loc. auto.
Qed.

Lemma tidy_fetch_logo airline : preserves tidy (fetch_logo net airline).
Proof.
  intros s. destruct airline as [| | | |name| |]; try reflexivity.
  destruct (AIRLINE_LOGO_DOMAINS !! name) as [domain|] eqn:Hn.
  - rewrite (fetch_logo_known net _ _ s Hn). simpl.
    apply tidy_requested; [|reflexivity]. exists name. exact Hn.
  - unfold fetch_logo. rewrite Hn. reflexivity.
Qed.

Lemma tidy_draw aircraft loc_name home_coords :
  preserves tidy (draw lm net panel aircraft loc_name home_coords).
Proof.
  unfold draw. destruct aircraft; [preserve_step|].
  repeat first [apply tidy_fetch_logo | apply tidy_show | preserve_step].
Qed.

Lemma tidy_enrich aircraft enriched : preserves tidy (enrich net aircraft enriched).
Proof.
  revert enriched. induction aircraft as [|ac rest IH]; intros enriched; simpl.
  - preserve_step.
  - repeat first [apply tidy_fetch_route_info | preserve_step].
    destruct a1 as [[airline origin] dest].
    destruct (py_ne_str airline "N/A"); [|apply IH].
    preserve_step; [preserve_step | apply IH].
Qed.

Lemma tidy_gather now : preserves tidy (gather net now).
Proof.
  unfold gather. apply preserves_bind; [exact _ | apply tidy_rotate_if_due | intros _].
  intros s. unfold mbind at 1. unfold M_bind at 1. unfold bind at 1. unfold current_location.
  destruct (LOCATIONS !! idx s) as [loc|] eqn:E; [|reflexivity].
  apply list_elem_of_lookup_2 in E. revert s.
  change (preserves tidy
    (aircraft ← fetch_aircraft net (loc_lat loc) (loc_lon loc) (loc_radius loc);
     items ← lift (py_iter aircraft);
     enriched ← enrich net items [];
     mret (loc, enriched))).
  repeat first [apply (tidy_fetch_aircraft loc E) | apply tidy_enrich | preserve_step].
Qed.

Lemma tidy_run_body now : preserves tidy (run_body lm net panel now).
Proof.
  unfold run_body. apply preserves_bind; [exact _ | apply tidy_gather |].
  intros [loc enriched]. simpl. destruct enriched.
  - apply tidy_skip_ahead.
  - apply tidy_draw.
Qed.

Lemma tidy_run clock : preserves tidy (run lm net panel clock).
Proof.
  induction clock as [|now later IH]; simpl.
  - apply preserves_ret. exact _.
  - apply preserves_bind; [exact _ | apply tidy_run_body | intros _; exact IH].
Qed.

End Tidy.

(** X15. Started from [init], the loop sends at most one route lookup per
    callsign, over any number of iterations and whatever the services
    answer; a callsign that is not in the cache has not been looked up. *)
Theorem one_lookup_per_callsign (lm : libm) (net : nat -> request -> reply)
    (panel : display) (t0 : Q) (clock : list Q) (callsign : string) :
  let s' := (run lm net panel clock (init t0)).2 in
  (lookups callsign s' <= 1)%nat /\
  (callsign_cache s' !! callsign = None -> lookups callsign s' = 0%nat).
Proof.
  cbv zeta. apply (proj1 (tidy_run lm net panel clock (init t0))).
  intros c. unfold lookups. simpl. split; [lia | reflexivity].
Qed.

(** X16. Every request the loop sends is the position query of one of
    [LOCATIONS], with that area's latitude, longitude and radius, or the
    route lookup of a callsign that is not empty, or the logo of a domain
    listed in [AIRLINE_LOGO_DOMAINS]. *)
Theorem requests_stay_configured (lm : libm) (net : nat -> request -> reply)
    (panel : display) (clock : list Q) (s : state) :
  exists l, sent (run lm net panel clock s).2 = sent s ++ l /\ Forall configured l.
Proof. exact (proj2 (tidy_run lm net panel clock s)). Qed.

(** ** What reaches the panel *)

Lemma routed_kept s s' fr : cache_kept s s' -> routed s fr -> routed s' fr.
Proof. intros Hk (c & r & Hc & H). exists c, r. split; [apply Hk, Hc | exact H]. Qed.

Lemma tagged_kept s s' ac : cache_kept s s' -> tagged s ac -> tagged s' ac.
Proof. intros Hk (d & c & r & Hc & H). exists d, c, r. split; [apply Hk, Hc | exact H]. Qed.

#[export] Instance on_air_preorder : PreOrder on_air.
Proof.
  split.
  - intros s. split; [reflexivity|]. exists []. rewrite app_nil_r. auto.
  - intros a b c [K1 (l1 & E1 & P1)] [K2 (l2 & E2 & P2)].
    split; [etransitivity; eassumption|].
    exists (l1 ++ l2). rewrite E2, E1, app_assoc. split; [reflexivity|].
    apply Forall_app. split; [|exact P2].
    eapply Forall_impl; [exact P1|]. intros fr. apply routed_kept, K2.
Qed.

Lemma on_air_silent s s' : cache_kept s s' -> grows shown 0 s s' -> on_air s s'.
Proof.
  intros Hk (l & E & Hl). split; [exact Hk|].
  destruct l; [|simpl in Hl; lia]. exists []. auto.
Qed.

Section OnAir.

Variable lm : libm.
Variable net : nat -> request -> reply.
Variable panel : display.

Lemma fetch_route_info_cached callsign s r s1 :
  fetch_route_info net callsign s = (Ok r, s1) -> callsign_cache s1 !! callsign = Some r.
Proof.
  destruct (callsign_cache s !! callsign) as [r0|] eqn:H.
  - rewrite (fetch_route_info_hit net _ _ _ H). intros E. injection E as <- <-. exact H.
  - destruct (String.eqb_spec callsign "") as [->|Hne].
    + rewrite (fetch_route_info_empty net _ H). intros E. injection E as <- <-.
      apply lookup_insert_eq.
    + rewrite (fetch_route_info_miss net _ _ Hne H). cbv zeta. intros E.
      injection E as <- <-. apply lookup_insert_eq.
Qed.

Lemma enrich_tagged items : forall enriched s out s',
  enrich net items enriched s = (Ok out, s') ->
  Forall (tagged s) enriched -> Forall (tagged s') out.
Proof.
  induction items as [|ac rest IH]; intros enriched s out s' H He.
  - injection H as <- <-. exact He.
  - rewrite enrich_step in H.
    destruct (obind _ _) as [callsign|]; [|discriminate].
    pose proof (quiet_fetch_route_info net callsign s) as Hq.
    pose proof (fetch_route_info_cached callsign s) as Hc.
    destruct (fetch_route_info net callsign s) as [[[[airline origin] dest]|] s1];
      [|discriminate].
    simpl in Hq. specialize (Hc _ _ eq_refl).
    assert (He1 : Forall (tagged s1) enriched).
    { eapply Forall_impl; [exact He|]. intros x. apply tagged_kept, quiet_cache_kept, Hq. }
    destruct (py_ne_str airline "N/A") eqn:Hne.
    + destruct ac; try discriminate. cbn in H.
      apply (IH _ _ _ _ H). apply Forall_app. split; [exact He1|].
      constructor; [|constructor]. exists d, callsign, (airline, origin, dest). auto.
    + apply (IH _ _ _ _ H He1).
Qed.

Lemma gather_tagged now s loc enriched s1 :
  gather net now s = (Ok (loc, enriched), s1) -> Forall (tagged s1) enriched.
Proof.
  unfold gather, mbind, M_bind, bind.
  pose proof (rotate_if_due_ok now s) as Hok.
  destruct (rotate_if_due now s) as [o s0]. simpl in Hok. subst o.
  unfold current_location. destruct (LOCATIONS !! idx s0) as [l|]; [|discriminate].
  rewrite fetch_aircraft_eq. cbv zeta. unfold lift.
  destruct (py_iter _) as [items|]; [|discriminate].
  destruct (enrich net items [] _) as [[out|] s2] eqn:E; [|discriminate].
  unfold mret, M_ret, ret. intros H. injection H as <- <- <-.
  apply (enrich_tagged _ _ _ _ _ E). constructor.
Qed.

Lemma draw_on_air ac rest loc_name home_coords s :
  tagged s ac -> on_air s (draw lm net panel (ac :: rest) loc_name home_coords s).2.
Proof.
  intros (d & callsign & r & Hc & Hne & ->).
  unfold draw, lift, mbind, M_bind, bind.
  destruct (derive lm _ home_coords) as [f|e] eqn:Hd; [|reflexivity].
  apply derive_inv in Hd. destruct Hd as (cs & alt & speed & dist & _ & _ & _ & _ & Hf).
  repeat first [rewrite lookup_insert_eq in Hf
               | rewrite lookup_insert_ne in Hf by discriminate].
  pose proof (quiet_fetch_logo net (f_airline f) s) as (_ & _ & Hk).
  pose proof (shown_fetch_logo net (f_airline f) s) as (l0 & Hs & Hl).
  destruct l0; [|simpl in Hl; lia]. rewrite app_nil_r in Hs.
  destruct (fetch_logo net (f_airline f) s) as [[logo|e] s1]; simpl in *.
  - split; [exact Hk|]. eexists [_]. rewrite Hs. split; [reflexivity|].
    constructor; [|constructor]. exists callsign, r.
    split; [apply Hk, Hc|]. split; [exact Hne|]. subst f. repeat split.
  - split; [exact Hk|]. exists []. rewrite Hs, app_nil_r. auto.
Qed.

Lemma run_body_on_air now : preserves on_air (run_body lm net panel now).
Proof.
  intros s. unfold run_body, mbind, M_bind, bind.
  pose proof (cache_kept_gather net now s) as Hk.
  pose proof (shown_gather net now s) as Hs.
  pose proof (gather_tagged now s) as Ht.
  destruct (gather net now s) as [[[loc enriched]|e] s1]; simpl in *.
  - destruct enriched as [|ac rest].
    + apply on_air_silent; [exact Hk|]. exact Hs.
    + etransitivity; [apply on_air_silent; [exact Hk | exact Hs]|].
      apply draw_on_air. specialize (Ht _ _ _ eq_refl).
      inversion Ht; assumption.
  - apply on_air_silent; assumption.
Qed.

Lemma run_on_air clock : preserves on_air (run lm net panel clock).
Proof.
  induction clock as [|now later IH]; simpl.
  - apply preserves_ret. exact _.
  - apply preserves_bind; [exact _ | apply run_body_on_air | intros _; exact IH].
Qed.

End OnAir.

(** X17. Every frame the loop hands to the panel prints, on its airline,
    origin and destination lines, a route that the cache holds at the end
    of the run, and the airline of that route is not ["N/A"]. *)
Theorem frames_show_cached_routes (lm : libm) (net : nat -> request -> reply)
    (panel : display) (clock : list Q) (s : state) :
  let s' := (run lm net panel clock s).2 in
  exists frames, shown s' = shown s ++ frames /\ Forall (routed s') frames.
Proof. exact (proj2 (run_on_air lm net panel clock s)). Qed.
